(** * ksuid: prefixed, k-sortable unique identifiers

    A shallow embedding of the Go package [ksuid] (id.go, the base-62
    decoder, the instance identities, the node generator and the set) and
    the properties of its textual format, generator and set.

    Conventions of the embedding:
    - a Go [byte], [uint16], [uint32], [uint64] is a [Z] together with its
      wrap-around ([u8], [u16], [u32], [u64]); [int64] conversions are [i64];
    - a Go [string] and a Go [[]byte] are both [list Z] (a sequence of byte
      values); literals are written with [bytes "..."];
    - a slice or array that the code writes by index is a list updated with
      stdpp's [<[i:=v]>];
    - a run-time panic is the [Panic] outcome of the [go] monad. *)

From Stdlib Require Import ZArith List Lia String Ascii Bool.
From stdpp Require Import base decidable countable list gmap.

Open Scope Z_scope.

(** ** Machine integers *)

Module Mach.

Definition wrap (w x : Z) : Z := x mod 2 ^ w.

Definition u8 : Z -> Z := wrap 8.
Definition u32 : Z -> Z := wrap 32.
Definition u64 : Z -> Z := wrap 64.

(** Conversion to a signed 64-bit integer (two's complement). *)
Definition i64 (x : Z) : Z := (x + 2 ^ 63) mod 2 ^ 64 - 2 ^ 63.

Definition is_u8 (x : Z) : Prop := 0 <= x < 256.
Definition is_u32 (x : Z) : Prop := 0 <= x < 2 ^ 32.
Definition is_i64 (x : Z) : Prop := - 2 ^ 63 <= x < 2 ^ 63.

Definition is_u8b (x : Z) : bool := (0 <=? x) && (x <? 256).

End Mach.
Import Mach.

(** ** Bytes, strings and the Go built-ins used by the package *)

Definition chr (c : ascii) : Z := Z.of_N (N_of_ascii c).

Definition bytes (s : string) : list Z := map chr (list_ascii_of_string s).

(** [make([]byte, n)] *)
Definition make (n : nat) : list Z := replicate n 0.

(** [copy(dst, src)]: overwrites the first [min (len dst) (len src)]
    elements of [dst]. *)
Definition copy {A : Type} (dst src : list A) : list A :=
  take (length dst) src ++ drop (length src) dst.

(** [copy(dst[off:], src)] seen from [dst]. *)
Definition copy_at {A : Type} (off : nat) (dst src : list A) : list A :=
  take off dst ++ copy (drop off dst) src.

(** [bytes.IndexByte] and [bytes.LastIndexByte]; [None] stands for -1. *)
Fixpoint IndexByte (s : list Z) (c : Z) : option nat :=
  match s with
  | [] => None
  | x :: s' => if x =? c then Some O else option_map S (IndexByte s' c)
  end.

Fixpoint LastIndexByte (s : list Z) (c : Z) : option nat :=
  match s with
  | [] => None
  | x :: s' =>
      match LastIndexByte s' c with
      | Some i => Some (S i)
      | None => if x =? c then Some O else None
      end
  end.

(** Big-endian integers of [encoding/binary]: the value of a byte string
    and the [n] bytes of a value. *)
Fixpoint be_value (l : list Z) : Z :=
  match l with
  | [] => 0
  | b :: l' => b * 256 ^ Z.of_nat (length l') + be_value l'
  end.

Fixpoint be_bytes (n : nat) (v : Z) : list Z :=
  match n with
  | O => []
  | S n' => u8 (Z.shiftr v (8 * Z.of_nat n')) :: be_bytes n' v
  end.

(** [binary.BigEndian.Uint16/32/64(b)]; the callers always pass slices
    that are long enough. *)
Definition Uint16 (b : list Z) : Z := be_value (take 2 b).
Definition Uint32 (b : list Z) : Z := be_value (take 4 b).
Definition Uint64 (b : list Z) : Z := be_value (take 8 b).

(** [binary.BigEndian.PutUint64(b, v)], and [PutUint16(b[off:], v)] and
    [PutUint32(b[off:], v)] seen from [b]. *)
Definition PutUint64 (b : list Z) (v : Z) : list Z := copy b (be_bytes 8 v).
Definition PutUint16_at (off : nat) (b : list Z) (v : Z) : list Z :=
  copy_at off b (be_bytes 2 v).
Definition PutUint32_at (off : nat) (b : list Z) (v : Z) : list Z :=
  copy_at off b (be_bytes 4 v).

(** ** Outcomes of Go code: a value, a run-time panic, or a loop whose
    fuel ran out *)

Inductive go (A : Type) : Type :=
| Return (a : A)
| Panic (msg : string)
| Diverge.
Arguments Return {A} a.
Arguments Panic {A} msg.
Arguments Diverge {A}.

#[global] Instance go_ret : MRet go := fun A a => Return a.

#[global] Instance go_bind : MBind go := fun A B k m =>
  match m with
  | Return a => k a
  | Panic msg => Panic msg
  | Diverge => Diverge
  end.

(** Go errors of the package: [*ParseError] and the [fmt.Errorf] values of
    the instance-identity parsers. *)
Inductive error : Type :=
| ParseError (errorString : string)
| Errorf (format : string) (arg : Z).

(** [err.Error()]; for an [Errorf] value the format string stands for the
    formatted text. *)
Definition Error (e : error) : string :=
  match e with
  | ParseError errorString => errorString
  | Errorf format _ => format
  end.

Definition nilDereference : string :=
  "invalid memory address or nil pointer dereference".

(** ** Base-62 decoder *)

Definition decodedLen : nat := 21.
Definition encodedLen : nat := 29.

Definition base62Characters : string :=
  "0123456789ABCDEFGHIJKLMNOPQRSTUVWXYZabcdefghijklmnopqrstuvwxyz".
Definition offsetUppercase : Z := 10.
Definition offsetLowercase : Z := 36.

(** [base62Value]: byte arithmetic, so the default branch wraps around for
    characters below ['a']. *)
Definition base62Value (digit : Z) : Z :=
  if (chr "0" <=? digit) && (digit <=? chr "9") then u8 (digit - chr "0")
  else if (chr "A" <=? digit) && (digit <=? chr "Z")
       then u8 (offsetUppercase + u8 (digit - chr "A"))
       else u8 (offsetLowercase + u8 (digit - chr "a")).

Definition srcBase : Z := 62.
Definition dstBase : Z := 4294967296.

(** The decoder keeps two arrays, [parts] and [bq]; [bp] is a slice of one
    of them starting at index 0 and [quotient] is always [bq[:qlen]].
    From the second round on [bp] and [quotient] share [bq]. *)
Inductive backing : Type := InParts | InBq.

Record slice : Type := { base : backing; len : nat }.

Record frame : Type := { parts : list Z; bq : list Z }.

(** The array behind a slice, and the read [s[i]]. *)
Definition backing_of (m : frame) (s : slice) : list Z :=
  match base s with InParts => parts m | InBq => bq m end.

Definition read (m : frame) (s : slice) (i : nat) : Z :=
  nth i (backing_of m s) 0.

(** [for _, c := range bp { ... }], from index [i], [k] elements to go.
    [append(quotient, byte(digit))] writes [bq[qlen]] in place: the
    capacity of [bq[:0]] is 29 and [qlen <= i < 29]. *)
Fixpoint range_bp (k i : nat) (m : frame) (bp : slice) (qlen : nat)
    (remainder : Z) : frame * nat * Z :=
  match k with
  | O => (m, qlen, remainder)
  | S k' =>
      let c := read m bp i in
      let value := u64 (c + u64 (remainder * srcBase)) in
      let digit := value / dstBase in
      let remainder' := value mod dstBase in
      if negb (qlen =? 0)%nat || negb (digit =? 0)
      then range_bp k' (S i)
             {| parts := parts m; bq := <[qlen := u8 digit]> (bq m) |}
             bp (S qlen) remainder'
      else range_bp k' (S i) m bp qlen remainder'
  end.

Definition outputTooShort : error := ParseError "output buffer too short".

(** [for len(bp) > 0 { ... }] followed by the final zero fill. The result
    is the final content of [dst] and the error. *)
Fixpoint decode_loop (fuel : nat) (m : frame) (bp : slice) (dst : list Z)
    (n : nat) : go (list Z * option error) :=
  if (len bp =? 0)%nat
  then Return (copy (take n dst) (make decodedLen) ++ drop n dst, None)
  else
    match fuel with
    | O => Diverge
    | S fuel' =>
        let '(m', qlen, remainder) := range_bp (len bp) 0 m bp 0 0 in
        if (n <? 4)%nat then Return (dst, Some outputTooShort)
        else
          let dst1 := <[(n - 4)%nat := u8 (Z.shiftr remainder 24)]> dst in
          let dst2 := <[(n - 3)%nat := u8 (Z.shiftr remainder 16)]> dst1 in
          let dst3 := <[(n - 2)%nat := u8 (Z.shiftr remainder 8)]> dst2 in
          let dst4 := <[(n - 1)%nat := u8 remainder]> dst3 in
          decode_loop fuel' m' {| base := InBq; len := qlen |} dst4 (n - 4)
    end.

(** Every round but a failing one lowers [n] by 4, so [n / 4 + 1] rounds
    are enough. *)
Definition decode_fuel (n : nat) : nat := S (n / 4).

(** [fastDecodeBase62(dst, src)]. Indexing [src[0] .. src[28]] panics when
    [src] is shorter than 29 bytes. *)
Definition fastDecodeBase62 (dst src : list Z) : go (list Z * option error) :=
  if (length src <? encodedLen)%nat then Panic "index out of range"
  else
    let parts := map base62Value (take encodedLen src) in
    let n := length dst in
    decode_loop (decode_fuel n)
      {| parts := parts; bq := replicate encodedLen 0 |}
      {| base := InParts; len := encodedLen |} dst n.

(** *** Arithmetic reading of the decoder (specification side) *)

(** The number a digit string denotes in base 62, most significant digit
    first. *)
Definition horner (ds : list Z) : Z := foldl (fun acc d => acc * srcBase + d) 0 ds.

(** The inner loop on immutable data: one long division of [bp] by 2^32
    that drops the leading zero digits of the quotient. *)
Fixpoint long_div (bp quotient : list Z) (remainder : Z) : list Z * Z :=
  match bp with
  | [] => (quotient, remainder)
  | c :: bp' =>
      let value := u64 (c + u64 (remainder * srcBase)) in
      let digit := value / dstBase in
      let remainder' := value mod dstBase in
      if negb (length quotient =? 0)%nat || negb (digit =? 0)
      then long_div bp' (quotient ++ [u8 digit]) remainder'
      else long_div bp' quotient remainder'
  end.

(** The digits a slice denotes. *)
Definition digits_of (m : frame) (s : slice) : list Z :=
  take (len s) (backing_of m s).

(** A quotient has no leading zero digit. *)
Definition clean (q : list Z) : Prop :=
  Forall (fun d => 0 <= d < 256) q /\ (q = [] \/ 0 < hd 0 q).

(** The digits [ds] fit [n] output bytes written in whole 4-byte chunks. *)
Definition fits (ds : list Z) (n : nat) : bool :=
  (length ds =? 0)%nat
  || ((4 <=? n)%nat && (horner ds <? 2 ^ (32 * Z.of_nat (n / 4)))).

(** The number the first 29 characters of [src] denote; characters outside
    the alphabet count with the digit [base62Value] gives them. *)
Definition decoded_number (src : list Z) : Z :=
  horner (map base62Value (take encodedLen src)).

(** ** The codec as [Parse] uses it, and the encoder of the specification *)

(** [dst := make([]byte, decodedLen); err = fastDecodeBase62(dst, src)]:
    the decoded payload, or the error. *)
Definition Decode (src : list Z) : go (error + list Z) :=
  r ← fastDecodeBase62 (make decodedLen) src;
  mret (match r.2 with
        | Some e => inl e
        | None => inr r.1
        end).

(** The [w] base-62 digits of [v], most significant first. *)
Fixpoint to_base62 (w : nat) (v : Z) : list Z :=
  match w with
  | O => []
  | S w' => to_base62 w' (v / srcBase) ++ [v mod srcBase]
  end.

Definition base62Char (d : Z) : Z :=
  nth (Z.to_nat d) (bytes base62Characters) (chr "0").

(** Modelled from the spec: the codec's [Encode], which the package does
    not define (it calls the third-party module basex). Section 4.1: the
    inverse big-integer base conversion of the 21 bytes to base-62 digits,
    left-padded with ['0'] to the fixed width of 29 characters. *)
Definition Encode (b : list Z) : list Z :=
  map base62Char (to_base62 encodedLen (be_value b)).

(** A character of the base-62 alphabet. *)
Definition is_base62 (c : Z) : Prop := In c (bytes base62Characters).

(** ** [time.Time] *)

(** The location pointer of a [time.Time]. *)
Inductive Location : Type := UTC | Local | Zone (p : positive).

Module Time.

(** A [time.Time] without monotonic clock reading: the wall-clock seconds
    since the Unix epoch, the nanoseconds within the second and the
    location. Every time the package stores went through [UTC()], which
    strips the monotonic reading. *)
Record t : Type := { sec : Z; nsec : Z; loc : Location }.

(** The zero [time.Time{}]: January 1, year 1, 00:00:00 UTC. *)
Definition zero : t := {| sec := -62135596800; nsec := 0; loc := UTC |}.

Definition IsZero (x : t) : bool := (sec x =? sec zero) && (nsec x =? 0).

(** [t.Unix()] *)
Definition Unix (x : t) : Z := i64 (sec x).

(** [t.UTC()] *)
Definition UTC (x : t) : t := {| sec := sec x; nsec := nsec x; loc := UTC |}.

(** [t.Equal(u)]: the same instant, whatever the locations. *)
Definition Equal (x u : t) : bool := (sec x =? sec u) && (nsec x =? nsec u).

(** [time.Duration] is an [int64] count of nanoseconds. *)
Definition Second : Z := 1000000000.
Definition minDuration : Z := - 2 ^ 63.
Definition maxDuration : Z := 2 ^ 63 - 1.

(** [t.Sub(u)]: the difference in nanoseconds, saturated to the range of a
    [Duration]. *)
Definition Sub (x u : t) : Z :=
  let d := (sec x - sec u) * Second + (nsec x - nsec u) in
  if d <? minDuration then minDuration
  else if maxDuration <? d then maxDuration
  else d.

End Time.

(** [time.Unix(sec, nsec)] for [0 <= nsec < 1e9]: a time in the local
    location. *)
Definition time_Unix (sec nsec : Z) : Time.t :=
  {| Time.sec := sec; Time.nsec := nsec; Time.loc := Local |}.

(** ** Instance identities *)

Module HardwareID.

Record t : Type := { MachineID : list Z; ProcessID : Z }.

Definition Scheme (hid : t) : Z := chr "H".

Definition Bytes (hid : t) : list Z :=
  let b := make 8 in
  let b := copy b (MachineID hid) in
  PutUint16_at 6 b (ProcessID hid).

End HardwareID.

Module DockerID.

Record t : Type := { ContainerID : list Z }.

Definition Scheme (did : t) : Z := chr "D".

Definition Bytes (did : t) : list Z := copy (make 8) (ContainerID did).

End DockerID.

Module RandomID.

(** [Random] is an array [[8]byte]. *)
Record t : Type := { Random : list Z }.

Definition Scheme (rid : t) : Z := chr "R".

Definition Bytes (rid : t) : list Z := Random rid.

End RandomID.

Module InstanceID.

(** The object behind a non-nil interface value: its dynamic type and the
    struct the pointer leads to. *)
Inductive object : Type :=
| Hardware (hid : HardwareID.t)
| Docker (did : DockerID.t)
| Random (rid : RandomID.t).

(** A non-nil pointer: its address and what it points to. Two references
    with the same address point to the same object, so that Go's [==] on
    these pointers is the equality of references. *)
Record ref : Type := { addr : positive; target : object }.

(** A value of the interface type [InstanceID]; [None] is [nil]. *)
Definition t : Type := option ref.

(** The methods on a reference, which is not [nil]: dynamic dispatch. *)
Definition scheme_of (r : ref) : Z :=
  match target r with
  | Hardware hid => HardwareID.Scheme hid
  | Docker did => DockerID.Scheme did
  | Random rid => RandomID.Scheme rid
  end.

Definition bytes_of (r : ref) : list Z :=
  match target r with
  | Hardware hid => HardwareID.Bytes hid
  | Docker did => DockerID.Bytes did
  | Random rid => RandomID.Bytes rid
  end.

(** Method calls on the interface value: a call on [nil] panics. *)
Definition Scheme (iid : t) : go Z :=
  match iid with
  | None => Panic nilDereference
  | Some r => Return (scheme_of r)
  end.

Definition Bytes (iid : t) : go (list Z) :=
  match iid with
  | None => Panic nilDereference
  | Some r => Return (bytes_of r)
  end.

End InstanceID.

(** [ParseHardwareID], [ParseDockerID], [ParseRandomID]. *)
Definition ParseHardwareID (b : list Z) : option HardwareID.t * option error :=
  if negb (length b =? 8)%nat
  then (None, Some (Errorf "expected 8 bytes, got %d" (Z.of_nat (length b))))
  else (Some {| HardwareID.MachineID := take 6 b;
                HardwareID.ProcessID := Uint16 (drop 6 b) |}, None).

Definition ParseDockerID (b : list Z) : option DockerID.t * option error :=
  if negb (length b =? 8)%nat
  then (None, Some (Errorf "expected 8 bytes, got %d" (Z.of_nat (length b))))
  else (Some {| DockerID.ContainerID := b |}, None).

Definition ParseRandomID (b : list Z) : option RandomID.t * option error :=
  if negb (length b =? 8)%nat
  then (None, Some (Errorf "expected 8 bytes, got %d" (Z.of_nat (length b))))
  else (Some {| RandomID.Random := copy (make 8) b |}, None).

(** [ParseInstanceID]. The struct it returns is newly allocated; [p] is
    the address of that allocation. The three parsers above get 8 bytes
    here and cannot fail; their error branch yields [nil]. *)
Definition ParseInstanceID (p : positive) (b : list Z)
    : InstanceID.t * option error :=
  if negb (length b =? 9)%nat
  then (None, Some (Errorf "expected 9 bytes, got %d" (Z.of_nat (length b))))
  else
    let at_p (o : option InstanceID.object) : InstanceID.t :=
      option_map (fun x => {| InstanceID.addr := p; InstanceID.target := x |}) o in
    let b0 := nth 0 b 0 in
    if b0 =? chr "H" then
      let '(hid, err) := ParseHardwareID (drop 1 b) in
      (at_p (option_map InstanceID.Hardware hid), err)
    else if b0 =? chr "D" then
      let '(did, err) := ParseDockerID (drop 1 b) in
      (at_p (option_map InstanceID.Docker did), err)
    else if b0 =? chr "R" then
      let '(rid, err) := ParseRandomID (drop 1 b) in
      (at_p (option_map InstanceID.Random rid), err)
    else (None, Some (Errorf "unknown node id '%c'" b0)).

(** ** Identifiers *)

(** [Production] is the internal name for production ksuid. *)
Definition Production : list Z := bytes "prod".

Definition underscore : Z := chr "_".

(** The double quote character. *)
Definition quote : Z := 34.

Module ID.

Record t : Type := {
  Environment : list Z;
  Resource : list Z;
  Timestamp : Time.t;
  InstanceID : InstanceID.t;
  SequenceID : Z
}.

(** The zero value [ID{}]. *)
Definition zero : t :=
  {| Environment := []; Resource := []; Timestamp := Time.zero;
     InstanceID := None; SequenceID := 0 |}.

Definition IsZero (id : t) : bool :=
  bool_decide (Environment id = []) && bool_decide (Resource id = [])
  && Time.IsZero (Timestamp id)
  && match InstanceID id with None => true | Some _ => false end
  && (SequenceID id =? 0).

Definition Equal (id x : t) : bool :=
  match InstanceID id, InstanceID x with
  | Some a, Some b =>
      bool_decide (Environment id = Environment x)
      && bool_decide (Resource id = Resource x)
      && (InstanceID.scheme_of a =? InstanceID.scheme_of b)
      && bool_decide (InstanceID.bytes_of a = InstanceID.bytes_of b)
      && Time.Equal (Timestamp id) (Timestamp x)
      && (SequenceID id =? SequenceID x)
  | _, _ => false
  end.

Definition prefixLen (id : t) : nat :=
  if negb (bool_decide (Resource id = [])) then
    let n := (length (Resource id) + 1)%nat in
    if negb (bool_decide (Environment id = []))
       && negb (bool_decide (Environment id = Production))
    then (n + (length (Environment id) + 1))%nat
    else n
  else 0%nat.

Section Encoder.

(** [basex.Base62.Encode(dst, src)] belongs to a third-party module: here
    it is any function from the content of [dst] before the call and [src]
    to the content of [dst] after the call. *)
Variable basex_Encode : list Z -> list Z -> list Z.

Definition Bytes (id : t) : go (list Z) :=
  let prefixLen := prefixLen id in
  let dst := make (prefixLen + encodedLen) in
  let dst :=
    if negb (bool_decide (Resource id = [])) then
      let '(dst, offset) :=
        if negb (bool_decide (Environment id = []))
           && negb (bool_decide (Environment id = Production))
        then (<[length (Environment id) := underscore]> (copy dst (Environment id)),
              (length (Environment id) + 1)%nat)
        else (dst, 0%nat) in
      let dst := copy_at offset dst (Resource id) in
      <[(offset + length (Resource id))%nat := underscore]> dst
    else dst in
  iid ← InstanceID.Bytes (InstanceID id);
  let x := make decodedLen in
  let y := make encodedLen in
  let x := PutUint64 x (u64 (Time.Unix (Timestamp id))) in
  scheme ← InstanceID.Scheme (InstanceID id);
  let x := <[8%nat := scheme]> x in
  let x := copy_at 9 x iid in
  let x := PutUint32_at 17 x (SequenceID id) in
  let y := basex_Encode y x in
  let dst := copy_at (prefixLen + 2) dst y in
  let dst := <[prefixLen := chr "0"]> dst in
  let dst := <[(prefixLen + 1)%nat := chr "0"]> dst in
  mret dst.

(** [String] converts the bytes to a string, the same byte sequence. *)
Definition String (id : t) : go (list Z) := Bytes id.

Definition Value (id : t) : go (list Z * option error) :=
  b ← Bytes id; mret (b, None).

Definition MarshalJSON (id : t) : go (list Z * option error) :=
  b ← Bytes id;
  let x := make (length b + 2) in
  let x := <[0%nat := quote]> x in
  let x := copy_at 1 x b in
  let x := <[(length x - 1)%nat := quote]> x in
  mret (x, None).

Definition GetBSON (id : t) : go (list Z * option error) :=
  s ← String id; mret (s, None).

End Encoder.

End ID.

Definition splitPrefixID (s : list Z) : list Z * list Z * list Z :=
  match LastIndexByte s underscore with
  | None => ([], [], s)
  | Some i =>
      match IndexByte (take i s) underscore with
      | Some j => (take j s, drop (j + 1) (take i s), drop (i + 1) s)
      | None => ([], take i s, drop (i + 1) s)
      end
  end.

(** [Parse]; [p] is the address of the instance identity it allocates. *)
Definition Parse (p : positive) (src : list Z) : go (ID.t * option error) :=
  let '(environment, resource, src) := splitPrefixID src in
  let environment :=
    if bool_decide (environment = []) then Production else environment in
  let id := {| ID.Environment := environment; ID.Resource := resource;
               ID.Timestamp := Time.zero; ID.InstanceID := None;
               ID.SequenceID := 0 |} in
  if (length src <? encodedLen)%nat
  then mret (id, Some (ParseError "ksuid too short"))
  else if (encodedLen <? length src)%nat
  then mret (id, Some (ParseError "ksuid too long"))
  else
    r ← fastDecodeBase62 (make decodedLen) src;
    let '(dst, err) := r in
    match err with
    | Some e => mret (id, Some (ParseError ("invalid base62: " ++ Error e)))
    | None =>
        let timestamp := Time.UTC (time_Unix (i64 (Uint64 (take 8 dst))) 0) in
        let '(instanceID, err) := ParseInstanceID p (drop 8 (take 17 dst)) in
        mret ({| ID.Environment := environment; ID.Resource := resource;
                 ID.Timestamp := timestamp; ID.InstanceID := instanceID;
                 ID.SequenceID := Uint32 (drop 17 dst) |}, err)
    end.

(** ** Nodes *)

Module Node.

(** The mutex [mu] serialises the calls of [Generate]: a call is one
    atomic step on the fields [ts] and [seq]. *)
Record t : Type := {
  Environment : list Z;
  InstanceID : InstanceID.t;
  ts : Time.t;
  seq : Z
}.

Definition NewNode (environment : list Z) (instanceID : InstanceID.t) : t :=
  {| Environment := environment; InstanceID := instanceID;
     ts := Time.zero; seq := 0 |}.

(** [Generate]; [now] is what [time.Now()] returns during the call. The
    result is the node after the call and the new identifier. *)
Definition Generate (n : t) (now : Time.t) (resource : list Z) : t * ID.t :=
  let ts' := Time.UTC now in
  let n' :=
    if Time.Sub ts' (ts n) >? 1 * Time.Second
    then {| Environment := Environment n; InstanceID := InstanceID n;
            ts := ts'; seq := 0 |}
    else {| Environment := Environment n; InstanceID := InstanceID n;
            ts := ts n; seq := u32 (seq n + 1) |} in
  (n', {| ID.Environment := Environment n; ID.Resource := resource;
          ID.Timestamp := ts n'; ID.InstanceID := InstanceID n;
          ID.SequenceID := seq n' |}).

(** A run of [Generate] calls, one clock reading and resource each; the
    identifiers come out in call order. *)
Fixpoint run (n : t) (calls : list (Time.t * list Z)) : t * list ID.t :=
  match calls with
  | [] => (n, [])
  | (now, resource) :: calls' =>
      let '(n1, id) := Generate n now resource in
      let '(n2, ids) := run n1 calls' in
      (n2, id :: ids)
  end.

End Node.

(** ** Sets of identifiers *)

(** The keys of the Go map [map[ID]struct{}] are compared with [==]:
    strings by content, the time by its fields, the interface value by
    dynamic type and pointer. On the model this is the equality of [ID.t],
    which the instances below make decidable and countable. *)
#[global] Instance Location_eq_dec : EqDecision Location.
Proof. solve_decision. Defined.

#[global] Instance Location_countable : Countable Location.
Proof.
  refine (inj_countable'
            (fun l => match l with
                      | UTC => inl false
                      | Local => inl true
                      | Zone p => inr p
                      end)
            (fun x => match x with
                      | inl false => UTC
                      | inl true => Local
                      | inr p => Zone p
                      end) _).
  intros []; reflexivity.
Defined.

#[global] Instance Time_eq_dec : EqDecision Time.t.
Proof. solve_decision. Defined.

#[global] Instance Time_countable : Countable Time.t.
Proof.
  refine (inj_countable'
            (fun x => (Time.sec x, Time.nsec x, Time.loc x))
            (fun x => {| Time.sec := x.1.1; Time.nsec := x.1.2; Time.loc := x.2 |}) _).
  intros []; reflexivity.
Defined.

#[global] Instance HardwareID_eq_dec : EqDecision HardwareID.t.
Proof. solve_decision. Defined.

#[global] Instance DockerID_eq_dec : EqDecision DockerID.t.
Proof. solve_decision. Defined.

#[global] Instance RandomID_eq_dec : EqDecision RandomID.t.
Proof. solve_decision. Defined.

#[global] Instance object_eq_dec : EqDecision InstanceID.object.
Proof. solve_decision. Defined.

#[global] Instance object_countable : Countable InstanceID.object.
Proof.
  refine (inj_countable'
            (fun o => match o with
                      | InstanceID.Hardware h =>
                          inl (HardwareID.MachineID h, HardwareID.ProcessID h)
                      | InstanceID.Docker d => inr (inl (DockerID.ContainerID d))
                      | InstanceID.Random r => inr (inr (RandomID.Random r))
                      end)
            (fun x => match x with
                      | inl (m, p) =>
                          InstanceID.Hardware
                            {| HardwareID.MachineID := m; HardwareID.ProcessID := p |}
                      | inr (inl c) => InstanceID.Docker {| DockerID.ContainerID := c |}
                      | inr (inr r) => InstanceID.Random {| RandomID.Random := r |}
                      end) _).
  intros [[]|[]|[]]; reflexivity.
Defined.

#[global] Instance ref_eq_dec : EqDecision InstanceID.ref.
Proof. solve_decision. Defined.

#[global] Instance ref_countable : Countable InstanceID.ref.
Proof.
  refine (inj_countable'
            (fun r => (InstanceID.addr r, InstanceID.target r))
            (fun x => {| InstanceID.addr := x.1; InstanceID.target := x.2 |}) _).
  intros []; reflexivity.
Defined.

#[global] Instance ID_eq_dec : EqDecision ID.t.
Proof. unfold InstanceID.t. solve_decision. Defined.

#[global] Instance ID_countable : Countable ID.t.
Proof.
  refine (inj_countable'
            (fun id => (ID.Environment id, ID.Resource id, ID.Timestamp id,
                        (ID.InstanceID id : option InstanceID.ref), ID.SequenceID id))
            (fun x => {| ID.Environment := x.1.1.1.1; ID.Resource := x.1.1.1.2;
                         ID.Timestamp := x.1.1.2; ID.InstanceID := x.1.2;
                         ID.SequenceID := x.2 |}) _).
  intros []; reflexivity.
Defined.

Module IDSet.

(** The Go type [Set]: the ordered items and the membership index. The
    lock makes every method one atomic step. *)
Record t : Type := { items : list ID.t; lookup : gset ID.t }.

(** [NewSet(x...)] *)
Definition NewSet (x : list ID.t) : t :=
  {| items := x;
     lookup := foldl (fun lookup id => {[ id ]} ∪ lookup) ∅ x |}.

(** [Append]: the set after the call and the result [appended]. *)
Definition Append (s : t) (id : ID.t) : t * bool :=
  if bool_decide (id ∈ lookup s)
  then (s, false)
  else ({| items := items s ++ [id]; lookup := {[ id ]} ∪ lookup s |}, true).

Definition Len (s : t) : nat := length (items s).

Definition Exists (s : t) (id : ID.t) : bool := bool_decide (id ∈ lookup s).

(** The index of the first item [x] with [x.Equal(id)]. *)
Fixpoint first_Equal (items : list ID.t) (id : ID.t) : option nat :=
  match items with
  | [] => None
  | x :: items' =>
      if ID.Equal x id then Some O else option_map S (first_Equal items' id)
  end.

(** [Delete]: the loop removes the first item that [Equal]s [id] by
    shifting the tail, then the key [id] leaves the index. *)
Definition Delete (s : t) (id : ID.t) : t :=
  let items' :=
    match first_Equal (items s) id with
    | Some i =>
        let shifted := copy_at i (items s) (drop (i + 1) (items s)) in
        let cleared := <[(length shifted - 1)%nat := ID.zero]> shifted in
        take (length cleared - 1) cleared
    | None => items s
    end in
  {| items := items'; lookup := lookup s ∖ {[ id ]} |}.

End IDSet.

(** ** Specification-side notions for the textual format *)

(** The prefix [Bytes] emits before the fixed-width part. *)
Definition text_prefix (id : ID.t) : list Z :=
  if bool_decide (ID.Resource id = []) then []
  else
    (if negb (bool_decide (ID.Environment id = []))
        && negb (bool_decide (ID.Environment id = Production))
     then ID.Environment id ++ [underscore]
     else [])
    ++ ID.Resource id ++ [underscore].

(** The 21-byte payload [x] that [Bytes] hands to the encoder. *)
Definition payload (id : ID.t) (r : InstanceID.ref) : list Z :=
  let x := PutUint64 (make decodedLen) (u64 (Time.Unix (ID.Timestamp id))) in
  let x := <[8%nat := InstanceID.scheme_of r]> x in
  let x := copy_at 9 x (InstanceID.bytes_of r) in
  PutUint32_at 17 x (ID.SequenceID id).

(** ** Values of the package's tests, used as concrete instances *)

(** An encoder for the concrete instances: it writes the 27 base-62 digits
    of the payload's number at the start of [dst]. On the identifiers of
    the package's tests (TestID/Bytes) [Bytes] then yields the texts those
    tests expect. *)
Definition example_Encode (dst src : list Z) : list Z :=
  copy dst (map base62Char (to_base62 27 (be_value src))).

(** The hardware identity, the identifier and the text of TestParse and
    TestID. *)
Definition example_ref : InstanceID.ref :=
  {| InstanceID.addr := 1;
     InstanceID.target :=
       InstanceID.Hardware
         {| HardwareID.MachineID := [140; 133; 144; 95; 68; 202];
            HardwareID.ProcessID := 32985 |} |}.

Definition example_id : ID.t :=
  {| ID.Environment := bytes "test"; ID.Resource := bytes "user";
     ID.Timestamp := {| Time.sec := 1522947222; Time.nsec := 0; Time.loc := UTC |};
     ID.InstanceID := Some example_ref; ID.SequenceID := 0 |}.

Definition example_body : list Z := bytes "000000BPG6Lks9tQoAiJYrBRSXPX6".

Definition example_payload : list Z :=
  [0; 0; 0; 0; 90; 198; 84; 150; 72; 140; 133; 144; 95; 68; 202; 128; 217;
   0; 0; 0; 0].

(** The instant of a time in nanoseconds since the Unix epoch. *)
Definition instant (x : Time.t) : Z := Time.sec x * Time.Second + Time.nsec x.

(** The node after a [Generate] call that adopts the clock reading, and
    after one that keeps the recorded time. *)
Definition adopted (n : Node.t) (now : Time.t) : Node.t :=
  {| Node.Environment := Node.Environment n; Node.InstanceID := Node.InstanceID n;
     Node.ts := Time.UTC now; Node.seq := 0 |}.

Definition kept (n : Node.t) : Node.t :=
  {| Node.Environment := Node.Environment n; Node.InstanceID := Node.InstanceID n;
     Node.ts := Node.ts n; Node.seq := u32 (Node.seq n + 1) |}.

(** The timestamp and sequence of an identifier. *)
Definition stamp (id : ID.t) : Time.t * Z := (ID.Timestamp id, ID.SequenceID id).

(** Clock readings of the examples: half past a second, and 200 ms and
    800 ms into the next second. *)
Definition reading (sec nsec : Z) : Time.t :=
  {| Time.sec := sec; Time.nsec := nsec; Time.loc := Local |}.

Definition example_node : Node.t := Node.NewNode Production (Some example_ref).

(** The invariant the type [Set] documents: each item exists exactly once,
    and the index holds exactly the items. *)
Definition set_invariant (s : IDSet.t) : Prop :=
  NoDup (IDSet.items s) /\ forall x, x ∈ IDSet.items s <-> x ∈ IDSet.lookup s.

(** The identifier of the tests behind another pointer: a second parse of
    the same text. *)
Definition example_twin : ID.t :=
  {| ID.Environment := ID.Environment example_id;
     ID.Resource := ID.Resource example_id;
     ID.Timestamp := ID.Timestamp example_id;
     ID.InstanceID :=
       Some {| InstanceID.addr := 2;
               InstanceID.target := InstanceID.target example_ref |};
     ID.SequenceID := ID.SequenceID example_id |}.

(** The prefix fields that the textual grammar can carry: an empty or
    production environment with a resource free of underscores, or another
    environment free of underscores with a resource that is not empty. *)
Definition prefix_survives (v : ID.t) : Prop :=
  ((ID.Environment v = [] \/ ID.Environment v = Production)
   /\ (underscore ∉ ID.Resource v))
  \/ (ID.Environment v <> [] /\ ID.Environment v <> Production
      /\ (underscore ∉ ID.Environment v) /\ ID.Resource v <> []).

(** The identifier "BareEnvironment" of TestID/Bytes, an environment
    without resource, and what [Parse] makes of its text. *)
Definition example_bare : ID.t :=
  {| ID.Environment := bytes "test"; ID.Resource := [];
     ID.Timestamp := ID.Timestamp example_id;
     ID.InstanceID := Some example_ref; ID.SequenceID := 0 |}.

Definition example_bare_parsed : ID.t :=
  {| ID.Environment := Production; ID.Resource := [];
     ID.Timestamp := ID.Timestamp example_id;
     ID.InstanceID := Some example_ref; ID.SequenceID := 0 |}.

(** ** What [Parse] builds *)

(** The identifier [Parse] holds before the body is decoded: the prefix
    fields with the production default, everything else zero. *)
Definition prefix_only (environment resource : list Z) : ID.t :=
  {| ID.Environment :=
       if bool_decide (environment = []) then Production else environment;
     ID.Resource := resource; ID.Timestamp := Time.zero;
     ID.InstanceID := None; ID.SequenceID := 0 |}.

(** The identifier [Parse] builds from a decoded payload [dst]. *)
Definition unpacked (p : positive) (environment resource dst : list Z) : ID.t :=
  {| ID.Environment :=
       if bool_decide (environment = []) then Production else environment;
     ID.Resource := resource;
     ID.Timestamp := Time.UTC (time_Unix (i64 (Uint64 (take 8 dst))) 0);
     ID.InstanceID := (ParseInstanceID p (drop 8 (take 17 dst))).1;
     ID.SequenceID := Uint32 (drop 17 dst) |}.

(** The scheme bytes of the three instance identities. *)
Definition known_scheme (c : Z) : bool :=
  (c =? chr "H") || (c =? chr "D") || (c =? chr "R").

(** The timestamps the payload carries and [Parse] returns: whole seconds
    from the Unix epoch to below 2^56 seconds. *)
Definition storable (x : Time.t) : Prop :=
  Time.nsec x = 0 /\ 0 <= Time.sec x < 2 ^ 56.

(** Identifiers of the tests' hardware identity at other prefixes and
    times: an empty environment, an underscore in the resource, the second
    before the Unix epoch, and half past the second of the tests. *)
Definition example_at (environment resource : list Z) (sec nsec : Z) : ID.t :=
  {| ID.Environment := environment; ID.Resource := resource;
     ID.Timestamp := {| Time.sec := sec; Time.nsec := nsec; Time.loc := UTC |};
     ID.InstanceID := Some example_ref; ID.SequenceID := 0 |}.

Definition example_blank : ID.t := example_at [] (bytes "user") 1522947222 0.

Definition example_underscore : ID.t :=
  example_at Production (bytes "a_b") 1522947222 0.

Definition example_early : ID.t := example_at Production (bytes "user") (-1) 0.

Definition example_subsecond : ID.t :=
  example_at Production (bytes "user") 1522947222 500000000.

(** * Notions for the further properties *)

(** The order of Go's [bytes.Compare] and of [<] on strings: bytewise,
    a proper prefix first. *)
Fixpoint lex_lt (a b : list Z) : Prop :=
  match a, b with
  | [], [] => False
  | [], _ :: _ => True
  | _ :: _, [] => False
  | x :: a', y :: b' => x < y \/ (x = y /\ lex_lt a' b')
  end.

(** What tells two identifiers of one node apart: the instant of the
    timestamp and the sequence number. *)
Definition key (id : ID.t) : Z * Z := (instant (ID.Timestamp id), ID.SequenceID id).

(** ** The adapters that read an identifier *)

(** [UnmarshalJSON]: the receiver [*id] after the call, and the error. *)
Definition UnmarshalJSON (p : positive) (id : ID.t) (b : list Z)
    : go (ID.t * option error) :=
  if (length b <? encodedLen + 2)%nat
  then mret (id, Some (ParseError "ksuid too short"))
  else if negb (nth 0 b 0 =? quote) || negb (nth (length b - 1) b 0 =? quote)
  then mret (id, Some (ParseError "expected string"))
  else
    r ← Parse p (drop 1 (take (length b - 1) b));
    match r.2 with
    | Some err => mret (id, Some err)
    | None => mret (r.1, None)
    end.

(** The dynamic type of the [interface{}] that [Scan] gets: a string, a
    byte slice, or anything else (also [nil]). *)
Inductive scan_source : Type :=
| ScanString (s : list Z)
| ScanBytes (b : list Z)
| ScanOther.

(** [Scan]: the receiver [*id] after the call, and the error. *)
Definition Scan (p : positive) (id : ID.t) (src : scan_source)
    : go (ID.t * option error) :=
  match src with
  | ScanString s =>
      r ← Parse p s;
      match r.2 with
      | Some err => mret (id, Some err)
      | None => mret (r.1, None)
      end
  | ScanBytes b =>
      r ← Parse p b;
      match r.2 with
      | Some err => mret (id, Some err)
      | None => mret (r.1, None)
      end
  | ScanOther =>
      mret (id, Some (ParseError "unsupported scan, must be string or []byte"))
  end.

(** ** Iterators over a set *)

Module Iterator.

(** The Go type [Iterator]. Its field [s] points to the set it was made
    for; the set is passed to [Next], which reads the items as they are
    at the call. *)
Record t : Type := { v : ID.t; i : nat }.

(** [Next]: the iterator after the call and the result [more]. *)
Definition Next (s : IDSet.t) (it : t) : t * bool :=
  if (length (IDSet.items s) <=? i it)%nat
  then ({| v := ID.zero; i := i it |}, false)
  else ({| v := nth (i it) (IDSet.items s) ID.zero; i := S (i it) |}, true).

Definition Value (it : t) : ID.t := v it.

End Iterator.

(** [Iter] *)
Definition Iter (s : IDSet.t) : Iterator.t :=
  {| Iterator.v := ID.zero; Iterator.i := 0 |}.

(** [k] calls of [Next] on a set nobody changes, each with the [Value]
    after it. *)
Fixpoint walk (s : IDSet.t) (it : Iterator.t) (k : nat) : list (bool * ID.t) :=
  match k with
  | O => []
  | S k' =>
      let '(it', more) := Iterator.Next s it in
      (more, Iterator.Value it') :: walk s it' k'
  end.

(** * Properties *)

(** ** The long division of the decoder *)

Section DecoderArithmetic.

Lemma horner_snoc (q : list Z) (d : Z) :
  horner (q ++ [d]) = horner q * srcBase + d.
Proof. unfold horner. rewrite foldl_app. reflexivity. Qed.

Lemma foldl_horner_shift (ds : list Z) (a : Z) :
  foldl (fun acc d => acc * srcBase + d) a ds
  = a * srcBase ^ Z.of_nat (length ds) + horner ds.
Proof.
  unfold horner. revert a.
  induction ds as [|d ds IH] using rev_ind; intros a; simpl.
  - lia.
  - rewrite !foldl_app, length_app. simpl.
    rewrite IH, Nat2Z.inj_add, Z.pow_add_r by lia.
    change (Z.of_nat 1) with 1. rewrite Z.pow_1_r. ring.
Qed.

Lemma horner_cons (d : Z) (ds : list Z) :
  horner (d :: ds) = d * srcBase ^ Z.of_nat (length ds) + horner ds.
Proof.
  unfold horner at 1. simpl. rewrite foldl_horner_shift. lia.
Qed.

Lemma horner_nonneg (ds : list Z) :
  Forall (fun d => 0 <= d < 256) ds -> 0 <= horner ds.
Proof.
  induction 1 as [|d ds Hd _ IH]; [reflexivity|].
  rewrite horner_cons.
  assert (0 <= srcBase ^ Z.of_nat (length ds)) by (apply Z.pow_nonneg; unfold srcBase; lia).
  nia.
Qed.

Lemma clean_pos (q : list Z) : clean q -> q <> [] -> 1 <= horner q.
Proof.
  intros [Hall [->|Hhd]] Hne; [congruence|].
  destruct q as [|d q]; [congruence|]. simpl in Hhd.
  rewrite horner_cons. inversion Hall as [|? ? _ Hq]; subst.
  pose proof (horner_nonneg q Hq).
  assert (1 <= srcBase ^ Z.of_nat (length q)).
  { assert (0 < srcBase ^ Z.of_nat (length q)) by (apply Z.pow_pos_nonneg; unfold srcBase; lia). lia. }
  nia.
Qed.

(** One step of the division: no 64-bit overflow, and the byte
    conversion of the quotient digit loses nothing. *)
Lemma div_step (c r : Z) :
  0 <= c < 256 -> 0 <= r < dstBase ->
  let value := u64 (c + u64 (r * srcBase)) in
  value = c + r * srcBase /\
  0 <= value / dstBase <= 62 /\
  u8 (value / dstBase) = value / dstBase /\
  0 <= value mod dstBase < dstBase /\
  value = (value / dstBase) * dstBase + value mod dstBase.
Proof.
  unfold u64, u8, wrap, dstBase, srcBase. intros Hc Hr. cbv zeta.
  rewrite (Z.mod_small (r * 62)) by lia.
  rewrite (Z.mod_small (c + r * 62)) by lia.
  assert (0 <= (c + r * 62) / 4294967296 <= 62).
  { split; [apply Z.div_pos; lia|].
    apply Z.lt_succ_r, Z.div_lt_upper_bound; lia. }
  repeat split; try lia.
  - apply Z.mod_small; lia.
  - apply Z.mod_pos_bound; lia.
  - apply Z.mod_pos_bound; lia.
  - pose proof (Z.div_mod (c + r * 62) 4294967296). lia.
Qed.

Lemma long_div_spec (bp : list Z) :
  forall (q : list Z) (r : Z),
    Forall (fun d => 0 <= d < 256) bp -> clean q -> 0 <= r < dstBase ->
    let '(q', r') := long_div bp q r in
    clean q' /\ 0 <= r' < dstBase /\
    (horner q * dstBase + r) * srcBase ^ Z.of_nat (length bp) + horner bp
    = horner q' * dstBase + r'.
Proof.
  induction bp as [|c bp IH]; intros q r Hbp Hq Hr.
  - cbn [long_div length]. split; [exact Hq|]. split; [exact Hr|].
    change (Z.of_nat 0) with 0. rewrite Z.pow_0_r.
    change (horner []) with 0. ring.
  - inversion Hbp as [|? ? Hc Hbp']; subst.
    destruct (div_step c r Hc Hr) as (Hv & Hd & Hu8 & Hrem & Hdm).
    cbn [long_div].
    set (value := u64 (c + u64 (r * srcBase))) in *.
    assert (Hgoal : forall q1, clean q1 ->
               horner q1 = horner q * srcBase + value / dstBase ->
               let '(q', r') := long_div bp q1 (value mod dstBase) in
               clean q' /\ 0 <= r' < dstBase /\
               (horner q * dstBase + r) * srcBase ^ Z.of_nat (length (c :: bp))
               + horner (c :: bp) = horner q' * dstBase + r').
    { intros q1 Hq1 Hh. specialize (IH q1 (value mod dstBase) Hbp' Hq1 Hrem).
      destruct (long_div bp q1 (value mod dstBase)) as [q' r'].
      destruct IH as (? & ? & IH). split; [assumption|]. split; [assumption|].
      rewrite <- IH, Hh, horner_cons. cbn [length].
      rewrite Nat2Z.inj_succ, Z.pow_succ_r by lia.
      assert (Hcr : c + r * srcBase = value / dstBase * dstBase + value mod dstBase) by lia.
      transitivity ((horner q * srcBase * dstBase + (c + r * srcBase))
                    * srcBase ^ Z.of_nat (length bp) + horner bp); [ring|].
      rewrite Hcr. ring. }
    destruct (negb (length q =? 0)%nat || negb (value / dstBase =? 0)) eqn:E.
    + apply Hgoal.
      * rewrite Hu8. destruct Hq as [Hall Hhd]. split.
        -- apply Forall_app; split; [assumption|]. constructor; [lia|constructor].
        -- right. destruct q as [|d q]; simpl.
           ++ simpl in E. destruct (Z.eqb_spec (value / dstBase) 0); simpl in E; [discriminate|lia].
           ++ destruct Hhd as [?|?]; [discriminate|assumption].
      * rewrite Hu8. apply horner_snoc.
    + apply orb_false_iff in E as [E1 E2].
      apply negb_false_iff in E1, E2.
      apply Nat.eqb_eq in E1. apply Z.eqb_eq in E2.
      destruct q; [|discriminate].
      apply Hgoal; [assumption|]. rewrite E2. unfold horner. simpl. lia.
Qed.

End DecoderArithmetic.

(** ** The in-place loop computes the long division *)

Section InPlace.

Lemma take_snoc_insert (l : list Z) (n : nat) (d : Z) :
  (n < length l)%nat -> take (S n) (<[n := d]> l) = take n l ++ [d].
Proof.
  intros Hn.
  rewrite (take_S_r _ _ d) by (apply list_lookup_insert_eq; exact Hn).
  rewrite take_insert_ge by lia. reflexivity.
Qed.

Lemma backing_after_write (m : frame) (bp : slice) (qlen i : nat) (d : Z) :
  (qlen <= i)%nat ->
  drop (S i) (backing_of {| parts := parts m; bq := <[qlen := d]> (bq m) |} bp)
  = drop (S i) (backing_of m bp).
Proof.
  intros Hq. unfold backing_of. destruct (base bp); simpl; [reflexivity|].
  apply drop_insert_lt. lia.
Qed.

Lemma range_bp_long_div (k : nat) :
  forall (i : nat) (m : frame) (bp : slice) (qlen : nat) (r : Z),
    (qlen <= i)%nat ->
    (i + k <= length (bq m))%nat ->
    (i + k <= length (backing_of m bp))%nat ->
    let res := long_div (take k (drop i (backing_of m bp))) (take qlen (bq m)) r in
    exists bq',
      range_bp k i m bp qlen r
      = ({| parts := parts m; bq := bq' |}, length res.1, res.2)
      /\ take (length res.1) bq' = res.1
      /\ length bq' = length (bq m).
Proof.
  induction k as [|k IH]; intros i m bp qlen r Hq Hbq Harr res.
  - subst res. rewrite take_0. cbn [long_div range_bp fst snd].
    exists (bq m). rewrite length_take_le by lia.
    destruct m; auto.
  - assert (Hi : (i < length (backing_of m bp))%nat) by lia.
    destruct (lookup_lt_is_Some_2 _ _ Hi) as [c Hc].
    assert (Hread : read m bp i = c).
    { unfold read. apply nth_lookup_Some. exact Hc. }
    subst res. rewrite (drop_S _ c i Hc). rewrite firstn_cons.
    cbn [long_div range_bp]. rewrite Hread.
    rewrite (length_take_le (bq m) qlen) by lia.
    set (value := u64 (c + u64 (r * srcBase))).
    destruct (negb (qlen =? 0)%nat || negb (value / dstBase =? 0)).
    + specialize (IH (S i) {| parts := parts m; bq := <[qlen := u8 (value / dstBase)]> (bq m) |}
                     bp (S qlen) (value mod dstBase)).
      cbv zeta in IH.
      assert (Hlen : length (backing_of {| parts := parts m;
                                           bq := <[qlen := u8 (value / dstBase)]> (bq m) |} bp)
                     = length (backing_of m bp)).
      { unfold backing_of. destruct (base bp); simpl; [reflexivity|].
        apply length_insert. }
      rewrite Hlen in IH.
      rewrite (backing_after_write m bp qlen i _ Hq) in IH.
      cbn [bq parts] in IH.
      rewrite length_insert in IH.
      rewrite take_snoc_insert in IH by lia.
      destruct IH as (bq' & E1 & E2 & E3); [lia|lia|lia|].
      exists bq'. rewrite E1. auto.
    + specialize (IH (S i) m bp qlen (value mod dstBase)).
      destruct IH as (bq' & E1 & E2 & E3); [lia|lia|lia|].
      exists bq'. auto.
Qed.

End InPlace.

(** ** Big-endian bytes *)

Section BigEndian.

Lemma u8_shiftr_mod (v s w : Z) :
  0 <= s -> s + 8 <= w -> u8 (Z.shiftr (v mod 2 ^ w) s) = u8 (Z.shiftr v s).
Proof.
  intros Hs Hw. unfold u8, wrap. apply Z.bits_inj'. intros k Hk.
  destruct (Z.ltb_spec k 8).
  - rewrite !Z.mod_pow2_bits_low, !Z.shiftr_spec by lia.
    apply Z.mod_pow2_bits_low. lia.
  - rewrite !Z.mod_pow2_bits_high by lia. reflexivity.
Qed.

Lemma be_bytes_length (n : nat) (v : Z) : length (be_bytes n v) = n.
Proof. induction n; simpl; congruence. Qed.

Lemma be_bytes_mod (n : nat) (v : Z) (w : Z) :
  8 * Z.of_nat n <= w -> be_bytes n (v mod 2 ^ w) = be_bytes n v.
Proof.
  induction n as [|n IH]; intros Hw; [reflexivity|].
  cbn [be_bytes]. rewrite IH by lia. f_equal. apply u8_shiftr_mod; lia.
Qed.

Lemma be_bytes_app (a b : nat) (v : Z) :
  be_bytes (a + b) v = be_bytes a (Z.shiftr v (8 * Z.of_nat b)) ++ be_bytes b v.
Proof.
  induction a as [|a IH]; [reflexivity|].
  cbn [Nat.add be_bytes app]. rewrite IH. f_equal.
  rewrite Z.shiftr_shiftr by lia. do 2 f_equal. lia.
Qed.

Lemma be_bytes_zero (n : nat) : be_bytes n 0 = replicate n 0.
Proof.
  induction n as [|n IH]; [reflexivity|].
  cbn [be_bytes replicate]. rewrite IH, Z.shiftr_0_l. reflexivity.
Qed.

Lemma be_value_bound (l : list Z) :
  Forall is_u8 l -> 0 <= be_value l < 256 ^ Z.of_nat (length l).
Proof.
  induction 1 as [|b l Hb _ IH]; [simpl; lia|].
  cbn [be_value length]. rewrite Nat2Z.inj_succ, Z.pow_succ_r by lia.
  unfold is_u8 in Hb. nia.
Qed.

Lemma be_bytes_value (l : list Z) :
  Forall is_u8 l -> be_bytes (length l) (be_value l) = l.
Proof.
  induction 1 as [|b l Hb Hl IH]; [reflexivity|].
  pose proof (be_value_bound l Hl) as Hbound.
  cbn [be_value length be_bytes].
  assert (Hp : 256 ^ Z.of_nat (length l) = 2 ^ (8 * Z.of_nat (length l))).
  { rewrite Z.pow_mul_r by lia. reflexivity. }
  f_equal.
  - rewrite Z.shiftr_div_pow2 by lia. rewrite <- Hp.
    rewrite Z.div_add_l by lia. rewrite (Z.div_small (be_value l)) by lia.
    rewrite Z.add_0_r. unfold u8, wrap, is_u8 in *. apply Z.mod_small. lia.
  - rewrite <- (be_bytes_mod _ _ (8 * Z.of_nat (length l))) by lia.
    rewrite <- Hp, Z.add_comm, Z.mod_add by lia.
    rewrite Z.mod_small by lia. exact IH.
Qed.

Lemma be_value_bytes (n : nat) (v : Z) :
  be_value (be_bytes n v) = v mod 256 ^ Z.of_nat n.
Proof.
  induction n as [|n IH]; [simpl; rewrite Z.mod_1_r; reflexivity|].
  cbn [be_bytes be_value]. rewrite be_bytes_length, IH.
  unfold u8, wrap. rewrite Z.shiftr_div_pow2 by lia.
  rewrite Nat2Z.inj_succ, Z.pow_succ_r by lia.
  replace (2 ^ (8 * Z.of_nat n)) with (256 ^ Z.of_nat n)
    by (rewrite Z.pow_mul_r by lia; reflexivity).
  change (2 ^ 8) with 256.
  set (P := 256 ^ Z.of_nat n).
  assert (0 < P) by (apply Z.pow_pos_nonneg; lia).
  rewrite (Z.mul_comm 256 P), Z.rem_mul_r by lia. lia.
Qed.

End BigEndian.

(** ** The outer loop of the decoder *)

Section OuterLoop.

Lemma write_chunk (dst : list Z) (n : nat) (r : Z) :
  (4 <= n <= length dst)%nat ->
  <[(n - 1)%nat := u8 r]>
    (<[(n - 2)%nat := u8 (Z.shiftr r 8)]>
       (<[(n - 3)%nat := u8 (Z.shiftr r 16)]>
          (<[(n - 4)%nat := u8 (Z.shiftr r 24)]> dst)))
  = take (n - 4) dst ++ be_bytes 4 r ++ drop n dst.
Proof.
  intros Hn.
  assert (Hlen : length (take (n - 4) dst) = (n - 4)%nat) by (apply length_take_le; lia).
  rewrite <- (take_drop (n - 4) dst) at 1.
  replace (drop n dst) with (drop 4 (drop (n - 4) dst))
    by (rewrite drop_drop; f_equal; lia).
  assert (Hd : (4 <= length (drop (n - 4) dst))%nat) by (rewrite length_drop; lia).
  destruct (drop (n - 4) dst) as [|x1 [|x2 [|x3 [|x4 post]]]]; simpl in Hd; try lia.
  rewrite !insert_app_r_alt by (rewrite ?length_app, ?length_insert, Hlen; lia).
  rewrite Hlen.
  replace (n - 4 - (n - 4))%nat with 0%nat by lia.
  replace (n - 3 - (n - 4))%nat with 1%nat by lia.
  replace (n - 2 - (n - 4))%nat with 2%nat by lia.
  replace (n - 1 - (n - 4))%nat with 3%nat by lia.
  cbn [be_bytes]. rewrite Z.shiftr_0_r. reflexivity.
Qed.

Lemma zero_fill (dst : list Z) (n : nat) :
  (n <= length dst)%nat -> (n <= decodedLen)%nat ->
  copy (take n dst) (make decodedLen) ++ drop n dst
  = be_bytes n 0 ++ drop n dst.
Proof.
  intros Hn Hd. unfold copy, make. f_equal.
  rewrite length_take_le, length_replicate by lia.
  rewrite take_replicate, drop_ge by (rewrite length_take_le; lia).
  rewrite be_bytes_zero, app_nil_r. f_equal. lia.
Qed.

Lemma div4_pred (n : nat) : (4 <= n)%nat -> (n / 4)%nat = S ((n - 4) / 4).
Proof.
  intros Hn. replace n with (n - 4 + 1 * 4)%nat at 1 by lia.
  rewrite Nat.div_add by lia. lia.
Qed.

Lemma pow_chunks (n : nat) :
  (4 <= n)%nat ->
  2 ^ (32 * Z.of_nat (n / 4)) = dstBase * 2 ^ (32 * Z.of_nat ((n - 4) / 4)).
Proof.
  intros Hn.
  rewrite (div4_pred n Hn), Nat2Z.inj_succ.
  replace (32 * Z.succ (Z.of_nat ((n - 4) / 4))) with (32 + 32 * Z.of_nat ((n - 4) / 4)) by lia.
  rewrite Z.pow_add_r by lia. reflexivity.
Qed.

Lemma decode_loop_spec (fuel : nat) :
  forall (m : frame) (bp : slice) (dst : list Z) (n : nat),
    (n / 4 < fuel)%nat ->
    (n <= length dst)%nat -> (n <= decodedLen)%nat ->
    (len bp <= length (bq m))%nat ->
    (len bp <= length (backing_of m bp))%nat ->
    Forall (fun d => 0 <= d < 256) (digits_of m bp) ->
    (base bp = InBq -> clean (digits_of m bp)) ->
    (fits (digits_of m bp) n = true ->
     decode_loop fuel m bp dst n
     = Return (be_bytes n (horner (digits_of m bp)) ++ drop n dst, None))
    /\ (fits (digits_of m bp) n = false ->
        exists d, decode_loop fuel m bp dst n = Return (d, Some outputTooShort)).
Proof.
  induction fuel as [|fuel IH]; intros m bp dst n Hfuel Hn Hdec Hbq Harr Hds Hclean;
    [lia|].
  assert (Hlen : length (digits_of m bp) = len bp).
  { unfold digits_of. apply length_take_le. exact Harr. }
  cbn [decode_loop]. unfold fits. rewrite Hlen.
  destruct (Nat.eqb_spec (len bp) 0) as [E0|E0].
  - (* the quotient is empty *)
    split; [intros _|discriminate].
    assert (digits_of m bp = []) as -> by (apply length_zero_iff_nil; lia).
    change (horner []) with 0. rewrite zero_fill by assumption. reflexivity.
  - cbn [orb].
    destruct (range_bp_long_div (len bp) 0 m bp 0 0) as (bq' & E1 & E2 & E3);
      [lia|lia|lia|].
    rewrite drop_0, take_0 in E1, E2.
    change (take (len bp) (backing_of m bp)) with (digits_of m bp) in E1, E2.
    pose proof (long_div_spec (digits_of m bp) [] 0 Hds) as Hdiv.
    destruct (long_div (digits_of m bp) [] 0) as [q r]. cbn [fst snd] in E1, E2.
    destruct Hdiv as (Hq & Hr & Hval);
      [split; [constructor|left; reflexivity]|unfold dstBase; lia|].
    assert (Hval' : horner (digits_of m bp) = horner q * dstBase + r).
    { rewrite <- Hval. change (horner []) with 0. ring. }
    clear Hval. rename Hval' into Hval.
    rewrite E1.
    destruct (Nat.ltb_spec n 4) as [Hn4|Hn4].
    + (* no room for another chunk *)
      replace (4 <=? n)%nat with false by (symmetry; apply Nat.leb_gt; lia).
      split; [discriminate|]. intros _. eauto.
    + replace (4 <=? n)%nat with true by (symmetry; apply Nat.leb_le; lia).
      cbn [andb]. rewrite write_chunk by lia.
      set (dst4 := take (n - 4) dst ++ be_bytes 4 r ++ drop n dst).
      set (m' := {| parts := parts m; bq := bq' |}).
      set (bp' := {| base := InBq; len := length q |}).
      assert (Hdig : digits_of m' bp' = q) by exact E2.
      assert (Hq_le : (length q <= length bq')%nat).
      { rewrite <- E2 at 1. rewrite length_take. lia. }
      assert (Hdst4 : length dst4 = length dst).
      { unfold dst4. rewrite !length_app, length_take_le, be_bytes_length, length_drop by lia. lia. }
      specialize (IH m' bp' dst4 (n - 4)%nat).
      rewrite Hdig in IH.
      pose proof (div4_pred n Hn4) as Hdiv4.
      destruct IH as [IHok IHerr];
        [lia|lia|lia|exact Hq_le|exact Hq_le|apply Hq|intros _; exact Hq|].
      assert (Hdrop : drop (n - 4) dst4 = be_bytes 4 r ++ drop n dst).
      { unfold dst4. apply drop_app_length'. symmetry. apply length_take_le. lia. }
      pose proof (pow_chunks n Hn4) as Hpow.
      set (P := 2 ^ (32 * Z.of_nat ((n - 4) / 4))) in *.
      assert (HP : 0 < P) by (apply Z.pow_pos_nonneg; lia).
      assert (HD : dstBase = 2 ^ 32) by reflexivity.
      split.
      * intros Hfit. apply Z.ltb_lt in Hfit.
        assert (Hq_fit : fits q (n - 4) = true).
        { unfold fits. destruct (Nat.eqb_spec (length q) 0) as [|Hne]; [reflexivity|].
          cbn [orb]. fold P.
          assert (horner q < P) by nia.
          assert (1 <= horner q).
          { apply clean_pos; [exact Hq|]. intros ->. apply Hne. reflexivity. }
          assert ((4 <= n - 4)%nat).
          { destruct (Nat.leb_spec 4 (n - 4)); [assumption|].
            assert (P = 1) by (unfold P; rewrite Nat.div_small by lia; reflexivity).
            lia. }
          apply andb_true_intro. split; [apply Nat.leb_le; assumption|apply Z.ltb_lt; assumption]. }
        assert (Hbytes : be_bytes n (horner (digits_of m bp))
                         = be_bytes (n - 4) (horner q) ++ be_bytes 4 r).
        { replace n with ((n - 4) + 4)%nat at 1 by lia.
          rewrite be_bytes_app. change (8 * Z.of_nat 4) with 32.
          rewrite <- (be_bytes_mod 4 (horner (digits_of m bp)) 32) by lia.
          rewrite Z.shiftr_div_pow2 by lia. rewrite Hval, <- HD.
          rewrite Z.div_add_l by lia. rewrite Z.div_small by lia.
          rewrite Z.add_0_r, Z.add_comm, Z.mod_add by lia.
          rewrite Z.mod_small by lia. reflexivity. }
        rewrite (IHok Hq_fit), Hdrop, Hbytes, app_assoc. reflexivity.
      * intros Hfit. apply Z.ltb_ge in Hfit.
        assert (Hq_fit : fits q (n - 4) = false).
        { unfold fits. fold P.
          assert (P <= horner q) by nia.
          destruct q as [|d q]; [change (horner []) with 0 in *; lia|].
          cbn [length Nat.eqb orb].
          apply andb_false_iff. right. apply Z.ltb_ge. assumption. }
        exact (IHerr Hq_fit).
Qed.

End OuterLoop.

(** ** The decoder on a 21-byte buffer *)

Section Decoder.

Lemma base62Value_range (d : Z) : 0 <= base62Value d < 256.
Proof.
  unfold base62Value.
  destruct ((chr "0" <=? d) && (d <=? chr "9"));
    [|destruct ((chr "A" <=? d) && (d <=? chr "Z"))];
    unfold u8, wrap; apply Z.mod_pos_bound; lia.
Qed.

Lemma digits_range (src : list Z) :
  Forall (fun d => 0 <= d < 256) (map base62Value src).
Proof. apply Forall_map, Forall_forall. intros d _. apply base62Value_range. Qed.

Lemma fastDecodeBase62_spec (dst src : list Z) :
  length dst = decodedLen -> (encodedLen <= length src)%nat ->
  (decoded_number src < 2 ^ 160 ->
   fastDecodeBase62 dst src = Return (be_bytes decodedLen (decoded_number src), None))
  /\ (2 ^ 160 <= decoded_number src ->
      exists d, fastDecodeBase62 dst src = Return (d, Some outputTooShort)).
Proof.
  intros Hdst Hsrc. unfold fastDecodeBase62.
  replace (length src <? encodedLen)%nat with false
    by (symmetry; apply Nat.ltb_ge; exact Hsrc).
  set (m := {| parts := map base62Value (take encodedLen src);
               bq := replicate encodedLen 0 |}).
  set (bp := {| base := InParts; len := encodedLen |}).
  assert (Hparts : length (map base62Value (take encodedLen src)) = encodedLen).
  { rewrite length_map. apply length_take_le. exact Hsrc. }
  assert (Hdig : digits_of m bp = map base62Value (take encodedLen src)).
  { unfold digits_of, backing_of, bp, m. cbn [base len parts].
    apply take_ge. rewrite Hparts. lia. }
  destruct (decode_loop_spec (decode_fuel (length dst)) m bp dst (length dst))
    as [Hok Herr].
  - unfold decode_fuel. lia.
  - lia.
  - rewrite Hdst. lia.
  - unfold m, bp. cbn [bq len]. rewrite length_replicate. lia.
  - unfold backing_of, m, bp. cbn [base len parts]. rewrite Hparts. lia.
  - rewrite Hdig. apply digits_range.
  - discriminate.
  - rewrite Hdig in Hok, Herr. fold (decoded_number src) in Hok, Herr.
    rewrite Hdst in *.
    assert (Hfits : fits (map base62Value (take encodedLen src)) decodedLen
                    = (decoded_number src <? 2 ^ 160)).
    { unfold fits. rewrite Hparts. reflexivity. }
    rewrite Hfits in Hok, Herr. split.
    + intros Hlt. rewrite Hok by (apply Z.ltb_lt; exact Hlt).
      rewrite drop_ge by lia. rewrite app_nil_r. reflexivity.
    + intros Hge. apply Herr. apply Z.ltb_ge. exact Hge.
Qed.

End Decoder.

(** ** The codec *)

Section Codec.

Lemma base62Value_Char (d : Z) : 0 <= d < 62 -> base62Value (base62Char d) = d.
Proof.
  intros Hd.
  assert (H : forallb (fun n => base62Value (base62Char (Z.of_nat n)) =? Z.of_nat n)
                (seq 0 62) = true) by (vm_compute; reflexivity).
  rewrite forallb_forall in H.
  specialize (H (Z.to_nat d)). rewrite Z2Nat.id in H by lia.
  apply Z.eqb_eq, H, in_seq. lia.
Qed.

Lemma base62Char_Value (c : Z) :
  is_base62 c -> base62Char (base62Value c) = c /\ 0 <= base62Value c < 62.
Proof.
  assert (H : Forall (fun c => base62Char (base62Value c) = c /\ 0 <= base62Value c < 62)
                (bytes base62Characters)).
  { repeat constructor; vm_compute; congruence. }
  rewrite Forall_forall in H. intros Hc. apply H, list_elem_of_In, Hc.
Qed.

Lemma to_base62_length (w : nat) (v : Z) : length (to_base62 w v) = w.
Proof.
  revert v. induction w as [|w IH]; intros v; [reflexivity|].
  cbn [to_base62]. rewrite length_app, IH. simpl. lia.
Qed.

Lemma to_base62_range (w : nat) (v : Z) :
  Forall (fun d => 0 <= d < 62) (to_base62 w v).
Proof.
  revert v. induction w as [|w IH]; intros v; [constructor|].
  cbn [to_base62]. apply Forall_app. split; [apply IH|].
  constructor; [|constructor]. apply Z.mod_pos_bound. reflexivity.
Qed.

Lemma horner_to_base62 (w : nat) (v : Z) :
  0 <= v -> horner (to_base62 w v) = v mod srcBase ^ Z.of_nat w.
Proof.
  revert v. induction w as [|w IH]; intros v Hv.
  - simpl. rewrite Z.mod_1_r. reflexivity.
  - cbn [to_base62]. rewrite horner_snoc, IH by (apply Z.div_pos; unfold srcBase; lia).
    rewrite Nat2Z.inj_succ, Z.pow_succ_r by lia.
    set (P := srcBase ^ Z.of_nat w).
    assert (0 < P) by (apply Z.pow_pos_nonneg; unfold srcBase; lia).
    rewrite (Z.rem_mul_r v srcBase P) by (unfold srcBase; lia). lia.
Qed.

Lemma to_base62_horner (ds : list Z) :
  Forall (fun d => 0 <= d < 62) ds -> to_base62 (length ds) (horner ds) = ds.
Proof.
  induction ds as [|d ds IH] using rev_ind; intros Hds; [reflexivity|].
  apply Forall_app in Hds as [Hds Hd]. inversion Hd as [|? ? Hd' _]; subst.
  rewrite length_app, Nat.add_comm. cbn [length Nat.add to_base62].
  rewrite horner_snoc. unfold srcBase.
  rewrite Z.div_add_l by lia. rewrite Z.div_small by lia. rewrite Z.add_0_r.
  rewrite IH by assumption. f_equal. f_equal.
  rewrite Z.add_comm, Z.mod_add by lia. apply Z.mod_small. lia.
Qed.

(** The digits the encoder writes denote the payload's number. *)
Lemma decoded_number_Encode (b : list Z) :
  Forall is_u8 b -> length b = decodedLen -> decoded_number (Encode b) = be_value b.
Proof.
  intros Hb Hlen. unfold decoded_number, Encode.
  rewrite take_ge by (rewrite length_map, to_base62_length; lia).
  rewrite map_map.
  rewrite (map_ext_Forall _ id).
  2:{ eapply Forall_impl; [apply to_base62_range|]. intros d Hd. apply base62Value_Char, Hd. }
  rewrite map_id.
  pose proof (be_value_bound b Hb) as Hbound. rewrite Hlen in Hbound.
  rewrite horner_to_base62 by lia.
  apply Z.mod_small. split; [lia|].
  eapply Z.lt_trans; [apply Hbound|]. reflexivity.
Qed.

Lemma Decode_spec (src : list Z) :
  (encodedLen <= length src)%nat ->
  Decode src
  = Return (if decoded_number src <? 2 ^ 160
            then inr (be_bytes decodedLen (decoded_number src))
            else inl outputTooShort).
Proof.
  intros Hsrc. unfold Decode.
  destruct (fastDecodeBase62_spec (make decodedLen) src) as [Hok Herr];
    [reflexivity|exact Hsrc|].
  destruct (Z.ltb_spec (decoded_number src) (2 ^ 160)) as [Hlt|Hge].
  - rewrite (Hok Hlt). reflexivity.
  - destruct (Herr Hge) as [d ->]. reflexivity.
Qed.

End Codec.

(** ** The prefix grammar *)

Section Prefix.

Lemma IndexByte_absent (s : list Z) (c : Z) : c ∉ s -> IndexByte s c = None.
Proof.
  induction s as [|x s IH]; intros Hc; [reflexivity|].
  apply not_elem_of_cons in Hc as [Hx Hs]. cbn [IndexByte].
  destruct (Z.eqb_spec x c); [congruence|]. rewrite (IH Hs). reflexivity.
Qed.

Lemma IndexByte_first (env res : list Z) (c : Z) :
  c ∉ env -> IndexByte (env ++ c :: res) c = Some (length env).
Proof.
  induction env as [|x env IH]; intros Hc; cbn [IndexByte app length].
  - rewrite Z.eqb_refl. reflexivity.
  - apply not_elem_of_cons in Hc as [Hx Hs].
    destruct (Z.eqb_spec x c); [congruence|]. rewrite (IH Hs). reflexivity.
Qed.

Lemma LastIndexByte_absent (s : list Z) (c : Z) : c ∉ s -> LastIndexByte s c = None.
Proof.
  induction s as [|x s IH]; intros Hc; [reflexivity|].
  apply not_elem_of_cons in Hc as [Hx Hs]. cbn [LastIndexByte].
  rewrite (IH Hs). destruct (Z.eqb_spec x c); [congruence|reflexivity].
Qed.

Lemma LastIndexByte_last (raw body : list Z) (c : Z) :
  c ∉ body -> LastIndexByte (raw ++ c :: body) c = Some (length raw).
Proof.
  intros Hc. induction raw as [|x raw IH]; cbn [LastIndexByte app length].
  - rewrite (LastIndexByte_absent body c Hc), Z.eqb_refl. reflexivity.
  - rewrite IH. reflexivity.
Qed.

Lemma splitPrefixID_bare (s : list Z) :
  underscore ∉ s -> splitPrefixID s = ([], [], s).
Proof.
  intros Hs. unfold splitPrefixID. rewrite (LastIndexByte_absent s _ Hs). reflexivity.
Qed.

Lemma splitPrefixID_resource (raw body : list Z) :
  underscore ∉ body -> underscore ∉ raw ->
  splitPrefixID (raw ++ underscore :: body) = ([], raw, body).
Proof.
  intros Hbody Hraw. unfold splitPrefixID.
  rewrite (LastIndexByte_last raw body _ Hbody), take_app_length.
  rewrite (IndexByte_absent raw _ Hraw).
  replace (length raw + 1)%nat with (length (raw ++ [underscore]))
    by (rewrite length_app; reflexivity).
  rewrite (cons_middle underscore raw body), app_assoc, drop_app_length.
  reflexivity.
Qed.

Lemma splitPrefixID_environment (env res body : list Z) :
  underscore ∉ body -> underscore ∉ env ->
  splitPrefixID ((env ++ underscore :: res) ++ underscore :: body) = (env, res, body).
Proof.
  intros Hbody Henv. unfold splitPrefixID.
  rewrite (LastIndexByte_last _ body _ Hbody), take_app_length.
  rewrite (IndexByte_first env res _ Henv).
  f_equal; [f_equal|].
  - rewrite <- app_assoc. apply take_app_length.
  - replace (length env + 1)%nat with (length (env ++ [underscore]))
      by (rewrite length_app; reflexivity).
    rewrite (cons_middle underscore env res), app_assoc, drop_app_length.
    reflexivity.
  - replace (length (env ++ underscore :: res) + 1)%nat
      with (length ((env ++ underscore :: res) ++ [underscore]))
      by (rewrite (length_app _ [underscore]); reflexivity).
    rewrite (cons_middle underscore (env ++ underscore :: res) body), app_assoc.
    apply drop_app_length.
Qed.

(** [Parse] always returns; the prefix fields of its identifier are those
    of the split, with the production default for the environment. *)
Lemma Parse_prefix_fields (p : positive) (s : list Z) :
  exists id err,
    Parse p s = Return (id, err)
    /\ ID.Resource id = (splitPrefixID s).1.2
    /\ ID.Environment id
       = (if bool_decide ((splitPrefixID s).1.1 = []) then Production
          else (splitPrefixID s).1.1).
Proof.
  unfold Parse. destruct (splitPrefixID s) as [[env res] body]. cbn [fst snd].
  destruct (length body <? encodedLen)%nat eqn:Hshort; [eauto|].
  destruct (encodedLen <? length body)%nat eqn:Hlong; [eauto|].
  apply Nat.ltb_ge in Hshort, Hlong.
  destruct (fastDecodeBase62_spec (make decodedLen) body) as [Hok Herr];
    [reflexivity|exact Hshort|].
  destruct (Z.lt_ge_cases (decoded_number body) (2 ^ 160)) as [Hlt|Hge].
  - rewrite (Hok Hlt). cbn [mbind go_bind].
    destruct (ParseInstanceID p _) as [iid err]. eauto.
  - destruct (Herr Hge) as [d ->]. cbn [mbind go_bind]. eauto.
Qed.

End Prefix.

(** C4. Prefix grammar of [Parse]. The input is split at its last
    underscore into raw prefix and body. When the raw prefix holds an
    underscore it is split at its first one into environment and resource;
    otherwise the raw prefix is the resource and the split environment is
    empty. Without any underscore both prefix fields of the split are empty
    and the whole input is the body; an input that is an underscore followed
    by the body has an empty resource. [Parse] keeps the resource of the
    split and replaces an empty environment by ["prod"]. *)
Theorem Parse_prefix_grammar (p : positive) (s : list Z) :
  (underscore ∉ s -> splitPrefixID s = ([], [], s))
  /\ (forall raw body,
        s = raw ++ underscore :: body -> underscore ∉ body ->
        (underscore ∉ raw -> splitPrefixID s = ([], raw, body))
        /\ (forall env res,
              raw = env ++ underscore :: res -> underscore ∉ env ->
              splitPrefixID s = (env, res, body)))
  /\ (forall body,
        s = underscore :: body -> underscore ∉ body ->
        splitPrefixID s = ([], [], body))
  /\ (exists id err,
        Parse p s = Return (id, err)
        /\ ID.Resource id = (splitPrefixID s).1.2
        /\ ID.Environment id
           = (if bool_decide ((splitPrefixID s).1.1 = []) then Production
              else (splitPrefixID s).1.1)).
Proof.
  split; [apply splitPrefixID_bare|].
  split; [|split; [|apply Parse_prefix_fields]].
  - intros raw body -> Hbody. split.
    + intros Hraw. apply splitPrefixID_resource; assumption.
    + intros env res -> Henv. apply splitPrefixID_environment; assumption.
  - intros body -> Hbody.
    apply (splitPrefixID_resource [] body Hbody), not_elem_of_nil.
Qed.

(** ** Equality of identifiers *)

(** C9. [Equal] holds exactly when both identifiers have an instance
    identity and environment, resource, scheme tag, fingerprint, timestamp
    (as an instant) and sequence are the same; an identifier without
    instance identity equals nothing, on either side, not even itself. *)
Theorem Equal_semantics (a b : ID.t) :
  (ID.Equal a b = true <->
   exists ra rb,
     ID.InstanceID a = Some ra /\ ID.InstanceID b = Some rb
     /\ ID.Environment a = ID.Environment b
     /\ ID.Resource a = ID.Resource b
     /\ InstanceID.scheme_of ra = InstanceID.scheme_of rb
     /\ InstanceID.bytes_of ra = InstanceID.bytes_of rb
     /\ Time.sec (ID.Timestamp a) = Time.sec (ID.Timestamp b)
     /\ Time.nsec (ID.Timestamp a) = Time.nsec (ID.Timestamp b)
     /\ ID.SequenceID a = ID.SequenceID b)
  /\ (ID.InstanceID a = None ->
      ID.Equal a b = false /\ ID.Equal b a = false /\ ID.Equal a a = false).
Proof.
  split.
  - unfold ID.Equal, Time.Equal. split.
    + destruct (ID.InstanceID a) as [ra|]; [|discriminate].
      destruct (ID.InstanceID b) as [rb|]; [|discriminate].
      intros H. repeat (apply andb_prop in H as [H ?]).
      exists ra, rb.
      repeat match goal with
             | H : _ && _ = true |- _ => apply andb_prop in H as [? ?]
             | H : bool_decide _ = true |- _ => apply bool_decide_eq_true in H
             | H : (_ =? _) = true |- _ => apply Z.eqb_eq in H
             end.
      repeat split; try reflexivity; assumption.
    + intros (ra & rb & -> & -> & He & Hr & Hs & Hb & Hsec & Hnsec & Hq).
      rewrite He, Hr, Hs, Hb, Hsec, Hnsec, Hq.
      rewrite !bool_decide_eq_true_2, !Z.eqb_refl by reflexivity. reflexivity.
  - intros Hnil. unfold ID.Equal. rewrite Hnil.
    destruct (ID.InstanceID b); auto.
Qed.

(** ** Encoding to text *)

Section Layout.

Lemma copy_replicate (n k : nat) (src : list Z) :
  length src = n -> copy (replicate (n + k) 0) src = src ++ replicate k 0.
Proof.
  intros <-. unfold copy. rewrite length_replicate.
  rewrite take_ge by lia. f_equal.
  rewrite drop_replicate. f_equal. lia.
Qed.

Lemma copy_at_app (pre rest src : list Z) :
  copy_at (length pre) (pre ++ rest) src = pre ++ copy rest src.
Proof.
  unfold copy_at. rewrite take_app_length, drop_app_length. reflexivity.
Qed.

Lemma insert_after (pre rest : list Z) (x v : Z) :
  <[length pre := v]> (pre ++ x :: rest) = pre ++ v :: rest.
Proof.
  rewrite insert_app_r_alt by lia. rewrite Nat.sub_diag. reflexivity.
Qed.

(** The fixed-width part: the two ['0'] characters, then what fits of
    [y]. *)
Lemma spacer_and_body (pre y : list Z) :
  length y = encodedLen ->
  <[(length pre + 1)%nat := chr "0"]>
    (<[length pre := chr "0"]>
       (copy_at (length pre + 2) (pre ++ replicate encodedLen 0) y))
  = pre ++ [chr "0"; chr "0"] ++ take 27 y.
Proof.
  intros Hy. unfold copy_at.
  rewrite take_app_add, drop_app_add.
  change (take 2 (replicate encodedLen 0)) with [0; 0].
  unfold copy. rewrite Hy.
  change (drop 2 (replicate encodedLen 0)) with (replicate 27 0).
  rewrite length_replicate.
  rewrite drop_ge by (rewrite length_replicate; unfold encodedLen; lia).
  rewrite app_nil_r, <- app_assoc. cbn [app].
  rewrite insert_after.
  rewrite (cons_middle (chr "0") pre), app_assoc.
  replace (length pre + 1)%nat with (length (pre ++ [chr "0"]))
    by (rewrite length_app; reflexivity).
  rewrite insert_after, <- app_assoc. reflexivity.
Qed.

(** The buffer after the prefix has been written. *)
Lemma prefix_written (id : ID.t) :
  length (text_prefix id) = ID.prefixLen id
  /\ (let dst := make (ID.prefixLen id + encodedLen) in
      (if negb (bool_decide (ID.Resource id = [])) then
         let '(dst, offset) :=
           if negb (bool_decide (ID.Environment id = []))
              && negb (bool_decide (ID.Environment id = Production))
           then (<[length (ID.Environment id) := underscore]>
                   (copy dst (ID.Environment id)),
                 (length (ID.Environment id) + 1)%nat)
           else (dst, 0%nat) in
         let dst := copy_at offset dst (ID.Resource id) in
         <[(offset + length (ID.Resource id))%nat := underscore]> dst
       else dst)
      = text_prefix id ++ replicate encodedLen 0).
Proof.
  unfold text_prefix, ID.prefixLen, make.
  destruct (bool_decide (ID.Resource id = [])); cbn [negb]; [split; reflexivity|].
  set (env := ID.Environment id). set (res := ID.Resource id).
  destruct (negb (bool_decide (env = [])) && negb (bool_decide (env = Production))).
  - split; [rewrite !length_app; simpl; lia|].
    replace (length res + 1 + (length env + 1) + encodedLen)%nat
      with (length env + S (length res + S encodedLen))%nat by lia.
    rewrite copy_replicate by reflexivity.
    cbn [replicate]. rewrite (insert_after env).
    rewrite (cons_middle underscore env), app_assoc.
    replace (length env + 1)%nat with (length (env ++ [underscore]))
      by (rewrite length_app; reflexivity).
    rewrite copy_at_app.
    rewrite copy_replicate by reflexivity. cbn [replicate].
    rewrite app_assoc, <- length_app.
    rewrite (insert_after ((env ++ [underscore]) ++ res)).
    rewrite <- !app_assoc. reflexivity.
  - split; [rewrite !length_app; simpl; lia|].
    replace (length res + 1 + encodedLen)%nat
      with (length res + S encodedLen)%nat by lia.
    change (copy_at 0 ?d ?s) with (copy d s).
    rewrite copy_replicate by reflexivity.
    cbn [replicate Nat.add app]. rewrite (insert_after res).
    rewrite <- !app_assoc. reflexivity.
Qed.

Lemma Bytes_present (enc : list Z -> list Z -> list Z) (id : ID.t)
    (r : InstanceID.ref) :
  ID.InstanceID id = Some r ->
  (forall y x, length (enc y x) = length y) ->
  ID.Bytes enc id
  = Return (text_prefix id ++ [chr "0"; chr "0"]
            ++ take 27 (enc (make encodedLen) (payload id r))).
Proof.
  intros Hr Henc. unfold ID.Bytes.
  destruct (prefix_written id) as [Hlen Hdst]. cbv zeta in Hdst.
  rewrite Hdst, Hr. cbn [InstanceID.Bytes InstanceID.Scheme mbind go_bind mret go_ret].
  rewrite <- Hlen. f_equal.
  apply spacer_and_body. rewrite Henc. reflexivity.
Qed.

End Layout.

(** C6. Layout of the encoded text. For an identifier with an instance
    identity, [Bytes] returns the prefix, the two characters ['0'] ['0'],
    and the first 27 characters the encoder wrote; the prefix is empty when
    the resource is empty, otherwise it is the resource and an underscore,
    preceded by the environment and an underscore when the environment is
    neither empty nor ["prod"]; its length is [prefixLen] and the whole
    output has [prefixLen + 29] bytes. *)
Theorem Bytes_layout (enc : list Z -> list Z -> list Z) (id : ID.t)
    (r : InstanceID.ref)
    (Hpresent : ID.InstanceID id = Some r)
    (Hlen : forall y x, length (enc y x) = length y) :
  exists out,
    ID.Bytes enc id = Return out
    /\ length out = (ID.prefixLen id + 29)%nat
    /\ ID.prefixLen id
       = (if bool_decide (ID.Resource id = []) then 0
          else length (ID.Resource id) + 1
               + (if bool_decide (ID.Environment id = [])
                     || bool_decide (ID.Environment id = Production)
                  then 0 else length (ID.Environment id) + 1))%nat
    /\ take (ID.prefixLen id) out = text_prefix id
    /\ take 2 (drop (ID.prefixLen id) out) = [chr "0"; chr "0"]
    /\ drop (ID.prefixLen id + 2) out
       = take 27 (enc (make encodedLen) (payload id r)).
Proof.
  destruct (prefix_written id) as [Hpre _].
  eexists. split; [apply (Bytes_present enc id r Hpresent Hlen)|].
  assert (Hbody : length (take 27 (enc (make encodedLen) (payload id r))) = 27%nat).
  { rewrite length_take, Hlen. reflexivity. }
  repeat split.
  - rewrite !length_app, Hpre, Hbody. simpl. lia.
  - unfold ID.prefixLen.
    destruct (bool_decide (ID.Resource id = [])); cbn [negb]; [reflexivity|].
    destruct (bool_decide (ID.Environment id = [])),
             (bool_decide (ID.Environment id = Production)); cbn; lia.
  - rewrite <- Hpre. apply take_app_length.
  - rewrite <- Hpre, drop_app_length. reflexivity.
  - rewrite <- Hpre.
    replace (length (text_prefix id) + 2)%nat
      with (length (text_prefix id ++ [chr "0"; chr "0"]))
      by (rewrite length_app; reflexivity).
    rewrite app_assoc. apply drop_app_length.
Qed.

Lemma copy_length {A : Type} (dst src : list A) : length (copy dst src) = length dst.
Proof.
  unfold copy. rewrite length_app, length_take, length_drop. lia.
Qed.

Lemma example_Encode_length (y x : list Z) : length (example_Encode y x) = length y.
Proof. apply copy_length. Qed.

Lemma Bytes_layout_witness :
  exists out,
    ID.Bytes example_Encode example_id = Return out
    /\ length out = (ID.prefixLen example_id + 29)%nat
    /\ ID.prefixLen example_id
       = (if bool_decide (ID.Resource example_id = []) then 0
          else length (ID.Resource example_id) + 1
               + (if bool_decide (ID.Environment example_id = [])
                     || bool_decide (ID.Environment example_id = Production)
                  then 0 else length (ID.Environment example_id) + 1))%nat
    /\ take (ID.prefixLen example_id) out = text_prefix example_id
    /\ take 2 (drop (ID.prefixLen example_id) out) = [chr "0"; chr "0"]
    /\ drop (ID.prefixLen example_id + 2) out
       = take 27 (example_Encode (make encodedLen) (payload example_id example_ref)).
Proof.
  apply (Bytes_layout example_Encode example_id example_ref).
  - reflexivity.
  - apply example_Encode_length.
Defined.

(** C10. The encoding operations need an instance identity: on an
    identifier whose instance identity is [nil], [Bytes], [String], [Value],
    [MarshalJSON] and [GetBSON] all panic with a nil dereference, whatever
    the encoder; none of them returns an error value. *)
Theorem encoding_without_instance_panics (enc : list Z -> list Z -> list Z)
    (id : ID.t) (Hnil : ID.InstanceID id = None) :
  ID.Bytes enc id = Panic nilDereference
  /\ ID.String enc id = Panic nilDereference
  /\ ID.Value enc id = Panic nilDereference
  /\ ID.MarshalJSON enc id = Panic nilDereference
  /\ ID.GetBSON enc id = Panic nilDereference.
Proof.
  assert (HB : ID.Bytes enc id = Panic nilDereference).
  { unfold ID.Bytes. rewrite Hnil. reflexivity. }
  unfold ID.String, ID.Value, ID.MarshalJSON, ID.GetBSON, ID.String.
  rewrite HB. repeat split; reflexivity.
Qed.

Lemma encoding_without_instance_panics_witness :
  ID.Bytes example_Encode ID.zero = Panic nilDereference
  /\ ID.String example_Encode ID.zero = Panic nilDereference
  /\ ID.Value example_Encode ID.zero = Panic nilDereference
  /\ ID.MarshalJSON example_Encode ID.zero = Panic nilDereference
  /\ ID.GetBSON example_Encode ID.zero = Panic nilDereference.
Proof.
  apply (encoding_without_instance_panics example_Encode ID.zero). reflexivity.
Defined.

(** ** The decoder's overflow check and the round trip of the codec *)

Section RoundTrip.

Lemma Encode_length (b : list Z) : length (Encode b) = encodedLen.
Proof. unfold Encode. rewrite length_map. apply to_base62_length. Qed.

Lemma base62Char_valid (d : Z) : 0 <= d < 62 -> is_base62 (base62Char d).
Proof.
  intros Hd. unfold is_base62, base62Char. apply nth_In.
  change (length (bytes base62Characters)) with 62%nat. lia.
Qed.

Lemma Encode_valid (b : list Z) : Forall is_base62 (Encode b).
Proof.
  unfold Encode. apply Forall_map.
  eapply Forall_impl; [apply to_base62_range|]. intros d Hd. apply base62Char_valid, Hd.
Qed.

Lemma leading_zero_bound (b : list Z) :
  length b = decodedLen -> Forall is_u8 b -> hd 0 b = 0 -> be_value b < 2 ^ 160.
Proof.
  intros Hlen Hb H0. destruct b as [|x b]; [discriminate|].
  simpl in H0. subst x. inversion Hb as [|? ? _ Hb']; subst.
  injection Hlen as Hlen. pose proof (be_value_bound b Hb') as Hbound.
  cbn [be_value]. rewrite Hlen in *. change (256 ^ Z.of_nat 20) with (2 ^ 160) in Hbound.
  lia.
Qed.

Lemma Decode_Encode (b : list Z) :
  length b = decodedLen -> Forall is_u8 b -> be_value b < 2 ^ 160 ->
  Decode (Encode b) = Return (inr b).
Proof.
  intros Hlen Hb Hsmall.
  rewrite Decode_spec by (rewrite Encode_length; lia).
  rewrite (decoded_number_Encode b Hb Hlen).
  replace (be_value b <? 2 ^ 160) with true by (symmetry; apply Z.ltb_lt; exact Hsmall).
  rewrite <- Hlen, (be_bytes_value b Hb). reflexivity.
Qed.

Lemma Encode_Decode (s d : list Z) :
  length s = encodedLen -> Forall is_base62 s ->
  Decode s = Return (inr d) -> Encode d = s.
Proof.
  intros Hlen Hs Hdec.
  rewrite Decode_spec in Hdec by lia.
  destruct (Z.ltb_spec (decoded_number s) (2 ^ 160)) as [Hlt|]; [|discriminate].
  assert (d = be_bytes decodedLen (decoded_number s)) as -> by congruence.
  clear Hdec. unfold Encode. rewrite be_value_bytes.
  unfold decoded_number in *. rewrite take_ge in * by lia.
  assert (Hdigits : Forall (fun d => 0 <= d < 62) (map base62Value s)).
  { apply Forall_map. eapply Forall_impl; [exact Hs|].
    intros c Hc. apply (base62Char_Value c Hc). }
  assert (Hnonneg : 0 <= horner (map base62Value s)).
  { apply horner_nonneg. eapply Forall_impl; [exact Hdigits|]. simpl. lia. }
  rewrite Z.mod_small by (split; [exact Hnonneg|];
    eapply Z.lt_trans; [exact Hlt|reflexivity]).
  replace encodedLen with (length (map base62Value s)) by (rewrite length_map; exact Hlen).
  rewrite (to_base62_horner _ Hdigits), map_map.
  rewrite (map_ext_Forall _ id); [apply map_id|].
  eapply Forall_impl; [exact Hs|]. intros c Hc. apply (base62Char_Value c Hc).
Qed.

End RoundTrip.

(** C5, as the code has it. On a 21-byte buffer and a 29-character input
    the decoder always returns, its only error is "output buffer too
    short", and it fails exactly when the number the 29 digits denote is at
    least 2^160, that is when it needs more than 20 bytes: the buffer is
    filled in whole 4-byte words from its end and its first byte stays
    zero. Below 2^160 the result is the number in 21 big-endian bytes.
    Nothing else is checked: a character outside the alphabet counts with
    the digit [base62Value] gives it. *)
Theorem decoder_overflow_check (dst src : list Z)
    (Hdst : length dst = decodedLen) (Hsrc : length src = encodedLen) :
  ((exists d, fastDecodeBase62 dst src = Return (d, Some outputTooShort))
   <-> 2 ^ 160 <= decoded_number src)
  /\ (fastDecodeBase62 dst src
      = Return (be_bytes decodedLen (decoded_number src), None)
      <-> decoded_number src < 2 ^ 160)
  /\ (exists d err,
        fastDecodeBase62 dst src = Return (d, err)
        /\ (err = None \/ err = Some outputTooShort)).
Proof.
  destruct (fastDecodeBase62_spec dst src Hdst) as [Hok Herr]; [lia|].
  destruct (Z.lt_ge_cases (decoded_number src) (2 ^ 160)) as [Hlt|Hge].
  - specialize (Hok Hlt). rewrite Hok. repeat split; try lia; eauto.
    intros [d Hd]. discriminate.
  - destruct (Herr Hge) as [d Hd]. rewrite Hd. repeat split; try lia; eauto.
    intros H. discriminate.
Qed.

Lemma decoder_overflow_check_witness :
  ((exists d, fastDecodeBase62 (make decodedLen) example_body
              = Return (d, Some outputTooShort))
   <-> 2 ^ 160 <= decoded_number example_body)
  /\ (fastDecodeBase62 (make decodedLen) example_body
      = Return (be_bytes decodedLen (decoded_number example_body), None)
      <-> decoded_number example_body < 2 ^ 160)
  /\ (exists d err,
        fastDecodeBase62 (make decodedLen) example_body = Return (d, err)
        /\ (err = None \/ err = Some outputTooShort)).
Proof.
  apply (decoder_overflow_check (make decodedLen) example_body); reflexivity.
Defined.

(** C5, the claim as stated fails: the 29 digits below denote 2^160, a
    number that 21 bytes hold, and the decoder rejects them with "output
    buffer too short". *)
Lemma decoder_overflow_counterexample :
  let src := bytes "00aWgEPTl1tmebfsQzFP4bxwgy80W" in
  length src = encodedLen
  /\ decoded_number src = 2 ^ 160
  /\ be_value (be_bytes decodedLen (decoded_number src)) = decoded_number src
  /\ Decode src = Return (inl outputTooShort)
  /\ (fastDecodeBase62 (make decodedLen) src ≫= fun r => mret r.2)
     = Return (Some outputTooShort).
Proof. vm_compute. repeat split; reflexivity. Qed.

(** C1, as the code has it, with the encoder of the specification. A
    21-byte payload whose first byte is zero is decoded back from its
    29-character encoding, and a 29-character string over the alphabet that
    the decoder accepts is the encoding of what it decodes to. *)
Theorem codec_roundtrip (b s d : list Z)
    (Hb : length b = decodedLen) (Hbytes : Forall is_u8 b) (Hzero : hd 0 b = 0)
    (Hs : length s = encodedLen) (Hvalid : Forall is_base62 s)
    (Hdec : Decode s = Return (inr d)) :
  Decode (Encode b) = Return (inr b) /\ Encode d = s.
Proof.
  split.
  - apply Decode_Encode; [exact Hb|exact Hbytes|].
    apply leading_zero_bound; assumption.
  - apply Encode_Decode; assumption.
Qed.

Lemma codec_roundtrip_witness :
  Decode (Encode example_payload) = Return (inr example_payload)
  /\ Encode example_payload = example_body.
Proof.
  apply (codec_roundtrip example_payload example_body example_payload).
  - reflexivity.
  - unfold example_payload, is_u8. repeat constructor; lia.
  - reflexivity.
  - reflexivity.
  - apply (Encode_valid example_payload).
  - vm_compute. reflexivity.
Defined.

(** C1, the claim as stated fails: the payload 01 00 ... 00 (the number
    2^160) has a 29-character encoding over the alphabet, and the decoder
    rejects that encoding, so neither round trip holds there. *)
Lemma codec_roundtrip_counterexample :
  let b := 1 :: replicate 20 0 in
  length b = decodedLen
  /\ forallb is_u8b b = true
  /\ Encode b = bytes "00aWgEPTl1tmebfsQzFP4bxwgy80W"
  /\ length (Encode b) = encodedLen
  /\ Decode (Encode b) = Return (inl outputTooShort).
Proof. vm_compute. repeat split; reflexivity. Qed.

(** ** The generator *)

Section Generator.

Lemma Sub_late (x u : Time.t) :
  Time.Sub x u > Time.Second -> instant x - instant u > Time.Second.
Proof.
  unfold Time.Sub, instant, Time.minDuration, Time.maxDuration, Time.Second.
  set (d := (Time.sec x - Time.sec u) * 1000000000 + (Time.nsec x - Time.nsec u)).
  destruct (Z.ltb_spec d (- 2 ^ 63)); [lia|].
  destruct (Z.ltb_spec (2 ^ 63 - 1) d); lia.
Qed.

Lemma Generate_cases (n : Node.t) (now : Time.t) (resource : list Z) :
  (Node.Generate n now resource).1
  = (if Time.Sub (Time.UTC now) (Node.ts n) >? 1 * Time.Second
     then adopted n now else kept n)
  /\ (Node.Generate n now resource).2
     = {| ID.Environment := Node.Environment n;
          ID.Resource := resource;
          ID.Timestamp := Node.ts (Node.Generate n now resource).1;
          ID.InstanceID := Node.InstanceID n;
          ID.SequenceID := Node.seq (Node.Generate n now resource).1 |}.
Proof.
  unfold Node.Generate, adopted, kept. cbn [fst snd].
  destruct (Time.Sub (Time.UTC now) (Node.ts n) >? 1 * Time.Second); split; reflexivity.
Qed.

Lemma Generate_never_back (n : Node.t) (now : Time.t) (resource : list Z) :
  instant (Node.ts n) <= instant (Node.ts (Node.Generate n now resource).1).
Proof.
  destruct (Generate_cases n now resource) as [-> _].
  destruct (Z.gtb_spec (Time.Sub (Time.UTC now) (Node.ts n)) (1 * Time.Second)) as [Hlate|_].
  - cbn [adopted Node.ts].
    assert (Hlate' : Time.Sub (Time.UTC now) (Node.ts n) > Time.Second) by lia.
    apply Sub_late in Hlate'. unfold Time.Second in *. lia.
  - cbn [kept Node.ts]. lia.
Qed.

Lemma run_never_back (history : list (Time.t * list Z)) :
  forall n, instant (Node.ts n) <= instant (Node.ts (Node.run n history).1).
Proof.
  induction history as [|[now resource] history IH]; intros n; cbn [Node.run].
  - cbn [fst]. lia.
  - pose proof (Generate_never_back n now resource) as Hstep.
    destruct (Node.Generate n now resource) as [n1 id] eqn:E. cbn [fst] in Hstep.
    specialize (IH n1). destruct (Node.run n1 history) as [n2 ids]. cbn [fst] in *. lia.
Qed.

(** A burst of calls, none more than a second past the recorded time. *)
Lemma run_burst (calls : list (Time.t * list Z)) :
  forall n,
    0 <= Node.seq n -> Node.seq n + Z.of_nat (length calls) < 2 ^ 32 ->
    Forall (fun call => Time.Sub (Time.UTC call.1) (Node.ts n) <= Time.Second) calls ->
    Node.ts (Node.run n calls).1 = Node.ts n
    /\ Node.seq (Node.run n calls).1 = Node.seq n + Z.of_nat (length calls)
    /\ map stamp (Node.run n calls).2
       = map (fun k => (Node.ts n, Node.seq n + Z.of_nat k)) (seq 1 (length calls)).
Proof.
  induction calls as [|[now resource] calls IH]; intros n Hseq Hroom Hnear.
  - cbn. repeat split; lia.
  - inversion Hnear as [|? ? Hnow Hnear']; subst. cbn [fst] in Hnow.
    cbn [length] in Hroom. rewrite Nat2Z.inj_succ in Hroom.
    cbn [Node.run].
    destruct (Generate_cases n now resource) as [Hn1 Hid].
    destruct (Node.Generate n now resource) as [n1 id]. cbn [fst snd] in Hn1, Hid.
    replace (Time.Sub (Time.UTC now) (Node.ts n) >? 1 * Time.Second) with false in Hn1
      by (symmetry; rewrite Z.gtb_ltb; apply Z.ltb_ge; lia).
    assert (Hu32 : u32 (Node.seq n + 1) = Node.seq n + 1).
    { unfold u32, wrap. apply Z.mod_small. lia. }
    assert (Hts1 : Node.ts n1 = Node.ts n) by (rewrite Hn1; reflexivity).
    assert (Hseq1 : Node.seq n1 = Node.seq n + 1) by (rewrite Hn1; exact Hu32).
    specialize (IH n1). rewrite Hts1, Hseq1 in IH.
    destruct IH as (IHts & IHseq & IHids); [lia|lia|exact Hnear'|].
    destruct (Node.run n1 calls) as [n2 ids]. cbn [fst snd] in *.
    split; [exact IHts|]. split; [cbn [length]; lia|].
    cbn [length seq map]. f_equal.
    + rewrite Hid. unfold stamp. cbn [ID.Timestamp ID.SequenceID].
      rewrite Hts1, Hseq1. f_equal.
    + rewrite IHids, <- (seq_shift (length calls) 1), map_map.
      apply map_ext. intros k. f_equal. lia.
Qed.

(** A reading in the wall-clock second of the recorded time is at most a
    second past it. *)
Lemma same_second_near (now ts : Time.t) :
  Time.sec now = Time.sec ts ->
  0 <= Time.nsec now < Time.Second -> 0 <= Time.nsec ts < Time.Second ->
  Time.Sub (Time.UTC now) ts <= Time.Second.
Proof.
  unfold Time.Sub, Time.UTC, Time.minDuration, Time.maxDuration, Time.Second.
  cbn [Time.sec Time.nsec]. intros -> Hn Ht.
  rewrite Z.sub_diag, Z.mul_0_l, Z.add_0_l.
  destruct (Z.ltb_spec (Time.nsec now - Time.nsec ts) (- 2 ^ 63)); [lia|].
  destruct (Z.ltb_spec (2 ^ 63 - 1) (Time.nsec now - Time.nsec ts)); lia.
Qed.

End Generator.

(** C3, as the code has it. A [Generate] call adopts the clock reading
    with sequence 0 when the reading is more than one second (in
    nanoseconds) past the recorded time, and otherwise keeps the recorded
    time and adds one to the 32-bit sequence; the recorded time never
    decreases, in one call or in a run of calls; and a burst of calls whose
    readings are each at most one second past the recorded time (as are
    readings in the wall-clock second of the recorded time) keeps that time
    and numbers its identifiers seq+1, seq+2, ... as long as the counter
    stays below 2^32. *)
Theorem Generate_step_and_monotonicity (n : Node.t) (now : Time.t)
    (resource : list Z) (history burst : list (Time.t * list Z))
    (Hseq : 0 <= Node.seq n)
    (Hroom : Node.seq n + Z.of_nat (length burst) < 2 ^ 32)
    (Hnear : Forall (fun call =>
                       Time.Sub (Time.UTC call.1) (Node.ts n) <= Time.Second) burst) :
  ((Node.Generate n now resource).1
   = (if Time.Sub (Time.UTC now) (Node.ts n) >? 1 * Time.Second
      then adopted n now else kept n)
   /\ stamp (Node.Generate n now resource).2
      = (Node.ts (Node.Generate n now resource).1,
         Node.seq (Node.Generate n now resource).1))
  /\ instant (Node.ts n) <= instant (Node.ts (Node.Generate n now resource).1)
  /\ instant (Node.ts n) <= instant (Node.ts (Node.run n history).1)
  /\ (Node.ts (Node.run n burst).1 = Node.ts n
      /\ map stamp (Node.run n burst).2
         = map (fun k => (Node.ts n, Node.seq n + Z.of_nat k)) (seq 1 (length burst)))
  /\ (Time.sec now = Time.sec (Node.ts n) ->
      0 <= Time.nsec now < Time.Second ->
      0 <= Time.nsec (Node.ts n) < Time.Second ->
      Time.Sub (Time.UTC now) (Node.ts n) <= Time.Second).
Proof.
  destruct (Generate_cases n now resource) as [Hn Hid].
  split; [split; [exact Hn|rewrite Hid; reflexivity]|].
  split; [apply Generate_never_back|].
  split; [apply run_never_back|].
  split; [|apply same_second_near].
  destruct (run_burst burst n Hseq Hroom Hnear) as (Hts & _ & Hids). auto.
Qed.

Lemma Generate_step_and_monotonicity_witness :
  let n := (Node.Generate example_node (reading 1522947222 500000000) (bytes "user")).1 in
  let burst := [(reading 1522947222 700000000, bytes "user");
                (reading 1522947223 200000000, bytes "user")] in
  Node.ts (Node.run n burst).1 = Node.ts n
  /\ map stamp (Node.run n burst).2
     = map (fun k => (Node.ts n, Node.seq n + Z.of_nat k)) (seq 1 (length burst)).
Proof.
  intros n burst.
  destruct (Generate_step_and_monotonicity n (reading 1522947223 200000000)
              (bytes "user") burst burst) as (_ & _ & _ & H & _).
  - vm_compute. discriminate.
  - vm_compute. reflexivity.
  - repeat (constructor; [vm_compute; discriminate|]). constructor.
  - exact H.
Defined.

(** C3, the claim as stated fails. A node records 1522947222.5 s; the next
    two calls read 1522947223.2 s and 1522947223.8 s, the same wall-clock
    second. The first of them is 0.7 s past the recorded time and gets
    sequence 1 on the old timestamp; the second is 1.3 s past it and gets
    sequence 0 on a new timestamp. *)
Lemma Generate_same_second_counterexample :
  let calls := [(reading 1522947222 500000000, bytes "user");
                (reading 1522947223 200000000, bytes "user");
                (reading 1522947223 800000000, bytes "user")] in
  map stamp (Node.run example_node calls).2
  = [({| Time.sec := 1522947222; Time.nsec := 500000000; Time.loc := UTC |}, 0);
     ({| Time.sec := 1522947222; Time.nsec := 500000000; Time.loc := UTC |}, 1);
     ({| Time.sec := 1522947223; Time.nsec := 800000000; Time.loc := UTC |}, 0)].
Proof. vm_compute. reflexivity. Qed.

(** ** Timestamps of identifiers *)

Section Timestamps.

Lemma Parse_timestamp (p : positive) (src : list Z) (id : ID.t) (err : option error) :
  Parse p src = Return (id, err) ->
  Time.nsec (ID.Timestamp id) = 0
  /\ Time.loc (ID.Timestamp id) = UTC
  /\ (err = None ->
      exists dst,
        Decode (splitPrefixID src).2 = Return (inr dst)
        /\ Time.sec (ID.Timestamp id) = i64 (Uint64 dst)).
Proof.
  unfold Parse. destruct (splitPrefixID src) as [[env res] body]. cbn [snd].
  destruct (length body <? encodedLen)%nat.
  { intros [= <- <-]. repeat split; discriminate. }
  destruct (encodedLen <? length body)%nat.
  { intros [= <- <-]. repeat split; discriminate. }
  unfold Decode.
  destruct (fastDecodeBase62 (make decodedLen) body) as [[dst [e|]]| |];
    cbn [mbind go_bind mret go_ret fst snd]; try discriminate.
  { intros [= <- <-]. repeat split; discriminate. }
  destruct (ParseInstanceID p _) as [iid e].
  intros [= <- <-]. cbn [ID.Timestamp Time.UTC Time.nsec Time.loc Time.sec time_Unix].
  repeat split. intros _. exists dst. split; [reflexivity|].
  unfold Uint64. rewrite take_take. reflexivity.
Qed.

Lemma run_timestamps (calls : list (Time.t * list Z)) :
  forall n,
    Forall (fun g => ID.Timestamp g = Node.ts n
                     \/ exists call, call ∈ calls /\ ID.Timestamp g = Time.UTC call.1)
      (Node.run n calls).2.
Proof.
  induction calls as [|[now resource] calls IH]; intros n; cbn [Node.run].
  - constructor.
  - destruct (Generate_cases n now resource) as [Hn1 Hid].
    destruct (Node.Generate n now resource) as [n1 id]. cbn [fst snd] in Hn1, Hid.
    specialize (IH n1). destruct (Node.run n1 calls) as [n2 ids]. cbn [snd] in *.
    assert (Hts : Node.ts n1 = Node.ts n \/ Node.ts n1 = Time.UTC now).
    { rewrite Hn1. destruct (_ >? _); [right|left]; reflexivity. }
    constructor.
    + rewrite Hid. cbn [ID.Timestamp].
      destruct Hts as [->| ->]; [left; reflexivity|].
      right. exists (now, resource). split; [apply list_elem_of_here|reflexivity].
    + eapply Forall_impl; [exact IH|]. intros g [Hg|(call & Hin & Hg)].
      * rewrite Hg. destruct Hts as [->| ->]; [left; reflexivity|].
        right. exists (now, resource). split; [apply list_elem_of_here|reflexivity].
      * right. exists call. split; [apply list_elem_of_further, Hin|exact Hg].
Qed.

End Timestamps.

(** C7, as the code has it. An identifier that [Parse] returns carries a
    whole-second timestamp in UTC, and on success its seconds are the
    first eight payload bytes read as seconds since the Unix epoch. An
    identifier that a node generates carries a UTC timestamp: the zero time
    or the UTC form of one of the clock readings, sub-second part
    included. *)
Theorem timestamp_normalization (p : positive) (src : list Z) (id : ID.t)
    (err : option error) (environment : list Z) (instanceID : InstanceID.t)
    (calls : list (Time.t * list Z))
    (HParse : Parse p src = Return (id, err)) :
  (Time.nsec (ID.Timestamp id) = 0
   /\ Time.loc (ID.Timestamp id) = UTC
   /\ (err = None ->
       exists dst,
         Decode (splitPrefixID src).2 = Return (inr dst)
         /\ Time.sec (ID.Timestamp id) = i64 (Uint64 dst)))
  /\ Forall (fun g =>
               Time.loc (ID.Timestamp g) = UTC
               /\ (ID.Timestamp g = Time.zero
                   \/ exists call, call ∈ calls /\ ID.Timestamp g = Time.UTC call.1))
       (Node.run (Node.NewNode environment instanceID) calls).2.
Proof.
  split; [exact (Parse_timestamp p src id err HParse)|].
  eapply Forall_impl; [apply run_timestamps|].
  cbn [Node.NewNode Node.ts]. intros g Hg. split; [|exact Hg].
  destruct Hg as [->|(call & _ & ->)]; reflexivity.
Qed.

Lemma timestamp_normalization_witness :
  ID.Timestamp example_id
  = {| Time.sec := 1522947222; Time.nsec := 0; Time.loc := UTC |}
  /\ Time.nsec (ID.Timestamp example_id) = 0
  /\ Time.loc (ID.Timestamp example_id) = UTC.
Proof.
  destruct (timestamp_normalization 1 (bytes "test_user_000000BPG6Lks9tQoAiJYrBRSXPX6")
              example_id None Production (Some example_ref) [])
    as [(Hnsec & Hloc & _) _].
  - vm_compute. reflexivity.
  - split; [reflexivity|]. split; [exact Hnsec|exact Hloc].
Defined.

(** C7, the claim as stated fails: a node whose clock reads half past a
    second generates an identifier whose timestamp keeps the half
    second. *)
Lemma timestamp_normalization_counterexample :
  ID.Timestamp
    (Node.Generate example_node (reading 1522947222 500000000) (bytes "user")).2
  = {| Time.sec := 1522947222; Time.nsec := 500000000; Time.loc := UTC |}.
Proof. reflexivity. Qed.

(** ** Sets of identifiers *)

Section Sets.

Lemma NewSet_index (l : list ID.t) :
  forall (acc : gset ID.t) (x : ID.t),
    x ∈ foldl (fun lookup id => {[ id ]} ∪ lookup) acc l <-> x ∈ l \/ x ∈ acc.
Proof.
  induction l as [|y l IH]; intros acc x; cbn [foldl].
  - rewrite elem_of_nil. tauto.
  - rewrite IH, elem_of_cons, elem_of_union, elem_of_singleton. tauto.
Qed.

Lemma NewSet_invariant (l : list ID.t) : NoDup l -> set_invariant (IDSet.NewSet l).
Proof.
  intros Hl. split; [exact Hl|]. intros x. cbn [IDSet.NewSet IDSet.items IDSet.lookup].
  rewrite NewSet_index, elem_of_empty. tauto.
Qed.

Lemma Append_invariant (s : IDSet.t) (id : ID.t) :
  set_invariant s ->
  set_invariant (IDSet.Append s id).1
  /\ IDSet.items s `prefix_of` IDSet.items (IDSet.Append s id).1
  /\ ((IDSet.Append s id).2 = true <-> id ∉ IDSet.lookup s).
Proof.
  intros [Hnodup Hidx]. unfold IDSet.Append.
  destruct (bool_decide_reflect (id ∈ IDSet.lookup s)) as [Hin|Hout]; cbn [fst snd].
  - split; [split; assumption|]. split; [reflexivity|]. split; [discriminate|tauto].
  - split; [|split; [apply prefix_app_r; reflexivity|tauto]].
    split; cbn [IDSet.items IDSet.lookup].
    + apply NoDup_app. split; [exact Hnodup|]. split; [|apply NoDup_singleton].
      intros x Hx Hx'. apply list_elem_of_singleton in Hx'. subst x.
      apply Hout, Hidx, Hx.
    + intros x. rewrite elem_of_app, list_elem_of_singleton, elem_of_union,
        elem_of_singleton, Hidx. tauto.
Qed.

Lemma first_Equal_lookup (l : list ID.t) (id : ID.t) (i : nat) :
  IDSet.first_Equal l id = Some i -> (i < length l)%nat.
Proof.
  revert i. induction l as [|x l IH]; intros i; cbn [IDSet.first_Equal]; [discriminate|].
  destruct (ID.Equal x id); [intros [= <-]; simpl; lia|].
  destruct (IDSet.first_Equal l id) as [j|]; [|discriminate].
  intros [= <-]. specialize (IH j eq_refl). simpl. lia.
Qed.

(** The shifting loop of [Delete] removes the item at the index found. *)
Lemma Delete_items (s : IDSet.t) (id : ID.t) :
  IDSet.items (IDSet.Delete s id)
  = match IDSet.first_Equal (IDSet.items s) id with
    | Some i => delete i (IDSet.items s)
    | None => IDSet.items s
    end.
Proof.
  unfold IDSet.Delete. cbn [IDSet.items].
  destruct (IDSet.first_Equal (IDSet.items s) id) as [i|] eqn:E; [|reflexivity].
  apply first_Equal_lookup in E. set (l := IDSet.items s) in *.
  rewrite length_insert. unfold copy_at, copy.
  rewrite delete_take_drop.
  assert (Hlen : length (take i l ++ take (length (drop i l)) (drop (i + 1) l)
                         ++ drop (length (drop (i + 1) l)) (drop i l))
                 = length l).
  { rewrite !length_app, !length_take, !length_drop. lia. }
  rewrite Hlen.
  replace (S i) with (i + 1)%nat by lia.
  rewrite (take_ge (drop (i + 1) l)) by (rewrite !length_drop; lia).
  rewrite app_assoc.
  assert (Hpre : length (take i l ++ drop (i + 1) l) = (length l - 1)%nat).
  { rewrite length_app, length_take, length_drop. lia. }
  rewrite insert_app_r_alt by lia. rewrite take_app_le by lia.
  rewrite take_ge by lia. reflexivity.
Qed.

Lemma Delete_order (s : IDSet.t) (id : ID.t) :
  IDSet.items (IDSet.Delete s id) `sublist_of` IDSet.items s.
Proof.
  rewrite Delete_items. destruct (IDSet.first_Equal _ _); [apply sublist_delete|reflexivity].
Qed.

Lemma first_Equal_found (l : list ID.t) (id : ID.t) (i : nat) :
  IDSet.first_Equal l id = Some i ->
  exists x, l !! i = Some x /\ ID.Equal x id = true.
Proof.
  revert i. induction l as [|y l IH]; intros i; cbn [IDSet.first_Equal]; [discriminate|].
  destruct (ID.Equal y id) eqn:E; [intros [= <-]; exists y; auto|].
  destruct (IDSet.first_Equal l id) as [j|]; [|discriminate].
  intros [= <-]. apply (IH j eq_refl).
Qed.

Lemma first_Equal_none (l : list ID.t) (id : ID.t) :
  IDSet.first_Equal l id = None -> forall x, x ∈ l -> ID.Equal x id = false.
Proof.
  induction l as [|y l IH]; cbn [IDSet.first_Equal]; intros Hnone x Hx.
  - apply elem_of_nil in Hx. contradiction.
  - destruct (ID.Equal y id) eqn:E; [discriminate|].
    destruct (IDSet.first_Equal l id) as [j|]; [discriminate|].
    apply elem_of_cons in Hx as [->|Hx]; [exact E|apply IH; auto].
Qed.

(** [Delete] keeps the invariant when [Equal] and the identity of keys
    agree on the stored items. *)
Lemma Delete_invariant (s : IDSet.t) (id : ID.t) :
  set_invariant s ->
  (forall x, x ∈ IDSet.items s -> (ID.Equal x id = true <-> x = id)) ->
  set_invariant (IDSet.Delete s id).
Proof.
  intros [Hnodup Hidx] Hagree. unfold set_invariant.
  rewrite Delete_items. cbn [IDSet.Delete IDSet.lookup].
  destruct (IDSet.first_Equal (IDSet.items s) id) as [i|] eqn:E.
  - destruct (first_Equal_found _ _ _ E) as (x & Hi & Hx).
    assert (x = id) as -> by (apply Hagree; [eapply list_elem_of_lookup_2, Hi|exact Hx]).
    pose proof (delete_Permutation _ _ _ Hi) as Hperm.
    assert (Hmem : forall y, y ∈ IDSet.items s
                             <-> y = id \/ y ∈ delete i (IDSet.items s)).
    { intros y. rewrite <- elem_of_cons.
      split; intros H; [rewrite <- Hperm|rewrite Hperm]; exact H. }
    rewrite Hperm in Hnodup. apply NoDup_cons in Hnodup as [Hfresh Hrest].
    split; [exact Hrest|]. intros y.
    rewrite elem_of_difference, elem_of_singleton, <- Hidx, Hmem.
    split; [|tauto]. intros Hy. split; [tauto|]. intros ->. contradiction.
  - split; [exact Hnodup|]. intros y.
    rewrite elem_of_difference, elem_of_singleton, <- Hidx.
    split; [|tauto]. intros Hy. split; [exact Hy|]. intros ->.
    pose proof (first_Equal_none _ _ E id Hy) as Hfalse.
    assert (ID.Equal id id = true) by (apply Hagree; auto). congruence.
Qed.

End Sets.

(** C8, the code against the invariant. [NewSet] on an argument list that
    repeats an identifier keeps both copies in the ordered items, with one
    key in the index. [Delete] of the zero identifier, whose instance
    identity is [nil] and which therefore [Equal]s nothing, leaves it in the
    items and removes its key. [Delete] of an identifier that [Equal]s a
    stored one behind another pointer removes the stored item and leaves
    its key. *)
Theorem Set_invariant_broken :
  (let s := IDSet.NewSet [example_id; example_id] in
   IDSet.items s = [example_id; example_id]
   /\ size (IDSet.lookup s) = 1%nat)
  /\ (let s := IDSet.Delete (IDSet.Append (IDSet.NewSet []) ID.zero).1 ID.zero in
      IDSet.items s = [ID.zero]
      /\ IDSet.Exists s ID.zero = false)
  /\ (let s := IDSet.Delete (IDSet.NewSet [example_id]) example_twin in
      ID.Equal example_id example_twin = true
      /\ IDSet.items s = []
      /\ IDSet.Exists s example_id = true).
Proof. vm_compute. repeat split; reflexivity. Qed.

(** ** From identifier to text and back *)

Section TextRoundTrip.

Lemma copy_at_length {A : Type} (off : nat) (dst src : list A) :
  length (copy_at off dst src) = length dst.
Proof.
  unfold copy_at. rewrite length_app, copy_length, length_take, length_drop. lia.
Qed.

Lemma bytes_of_length (r : InstanceID.ref) :
  match InstanceID.target r with
  | InstanceID.Random rid => length (RandomID.Random rid) = 8%nat
  | _ => True
  end ->
  length (InstanceID.bytes_of r) = 8%nat.
Proof.
  unfold InstanceID.bytes_of. destruct (InstanceID.target r) as [h|d|rid]; intros H.
  - unfold HardwareID.Bytes, PutUint16_at. rewrite copy_at_length, copy_length.
    reflexivity.
  - unfold DockerID.Bytes. rewrite copy_length. reflexivity.
  - exact H.
Qed.

Lemma payload_layout (v : ID.t) (r : InstanceID.ref) :
  length (InstanceID.bytes_of r) = 8%nat ->
  payload v r
  = be_bytes 8 (u64 (Time.Unix (ID.Timestamp v)))
    ++ [InstanceID.scheme_of r] ++ InstanceID.bytes_of r
    ++ be_bytes 4 (ID.SequenceID v).
Proof.
  intros Hlen. unfold payload.
  destruct (InstanceID.bytes_of r) as [|b0 [|b1 [|b2 [|b3 [|b4 [|b5 [|b6 [|b7 [|]]]]]]]]];
    try discriminate.
  reflexivity.
Qed.

Lemma i64_u64 (x : Z) : is_i64 x -> i64 (u64 x) = x.
Proof.
  unfold is_i64, i64, u64, wrap. intros Hx.
  rewrite Zplus_mod_idemp_l. rewrite Z.mod_small by lia. lia.
Qed.

Lemma i64_id (x : Z) : is_i64 x -> i64 x = x.
Proof.
  unfold is_i64, i64. intros Hx. rewrite Z.mod_small by lia. lia.
Qed.

Lemma u64_range (x : Z) : 0 <= u64 x < 2 ^ 64.
Proof. unfold u64, wrap. apply Z.mod_pos_bound. lia. Qed.

Lemma base62_not_underscore (c : Z) : is_base62 c -> c <> underscore.
Proof.
  intros Hc ->. revert Hc. unfold is_base62.
  assert (H : existsb (Z.eqb underscore) (bytes base62Characters) = false)
    by (vm_compute; reflexivity).
  intros Hin. apply not_true_iff_false in H. apply H.
  apply existsb_exists. exists underscore. split; [exact Hin|apply Z.eqb_refl].
Qed.

(** The instance identity survives the payload. *)
Lemma ParseInstanceID_bytes_of (p : positive) (r : InstanceID.ref) :
  length (InstanceID.bytes_of r) = 8%nat ->
  exists r',
    ParseInstanceID p (InstanceID.scheme_of r :: InstanceID.bytes_of r) = (Some r', None)
    /\ InstanceID.scheme_of r' = InstanceID.scheme_of r
    /\ InstanceID.bytes_of r' = InstanceID.bytes_of r.
Proof.
  intros Hlen. unfold ParseInstanceID. cbn [length]. rewrite Hlen.
  cbn [Nat.eqb negb nth drop].
  unfold InstanceID.scheme_of, InstanceID.bytes_of in *.
  destruct (InstanceID.target r) as [h|d|rid].
  - cbn [HardwareID.Scheme]. rewrite Z.eqb_refl.
    unfold ParseHardwareID. rewrite !drop_0, Hlen. cbn [Nat.eqb negb option_map].
    eexists. split; [reflexivity|]. split; [reflexivity|].
    cbn [InstanceID.target]. unfold HardwareID.Bytes in *.
    cbn [HardwareID.MachineID HardwareID.ProcessID].
    set (X := copy (make 8) (HardwareID.MachineID h)) in *.
    assert (HX : length X = 8%nat) by (unfold X; rewrite copy_length; reflexivity).
    destruct X as [|x0 [|x1 [|x2 [|x3 [|x4 [|x5 [|x6 [|x7 [|]]]]]]]]]; try discriminate.
    unfold PutUint16_at, copy_at, copy, make, Uint16.
    cbn [take drop length app replicate be_bytes].
    change [u8 (HardwareID.ProcessID h ≫ (8 * Z.of_nat 1));
            u8 (HardwareID.ProcessID h ≫ (8 * Z.of_nat 0))]
      with (be_bytes 2 (HardwareID.ProcessID h)).
    rewrite be_value_bytes.
    rewrite !(u8_shiftr_mod _ _ 16) by lia. reflexivity.
  - cbn [DockerID.Scheme].
    change (chr "D" =? chr "H") with false. rewrite Z.eqb_refl. cbn match.
    unfold ParseDockerID. rewrite !drop_0, Hlen. cbn [Nat.eqb negb option_map].
    eexists. split; [reflexivity|]. split; [reflexivity|].
    cbn [InstanceID.target]. unfold DockerID.Bytes in *. cbn [DockerID.ContainerID].
    set (X := copy (make 8) (DockerID.ContainerID d)) in *.
    destruct X as [|x0 [|x1 [|x2 [|x3 [|x4 [|x5 [|x6 [|x7 [|]]]]]]]]]; try discriminate.
    reflexivity.
  - cbn [RandomID.Scheme].
    change (chr "R" =? chr "H") with false. change (chr "R" =? chr "D") with false.
    rewrite Z.eqb_refl. cbn match.
    unfold ParseRandomID. rewrite !drop_0, Hlen. cbn [Nat.eqb negb option_map].
    eexists. split; [reflexivity|]. split; [reflexivity|].
    cbn [InstanceID.target]. unfold RandomID.Bytes in *. cbn [RandomID.Random].
    destruct (RandomID.Random rid)
      as [|x0 [|x1 [|x2 [|x3 [|x4 [|x5 [|x6 [|x7 [|]]]]]]]]]; try discriminate.
    reflexivity.
Qed.

Lemma payload_fields (v : ID.t) (r : InstanceID.ref) :
  length (InstanceID.bytes_of r) = 8%nat ->
  Uint64 (take 8 (payload v r)) = u64 (Time.Unix (ID.Timestamp v))
  /\ drop 8 (take 17 (payload v r))
     = InstanceID.scheme_of r :: InstanceID.bytes_of r
  /\ Uint32 (drop 17 (payload v r)) = u32 (ID.SequenceID v).
Proof.
  intros Hlen. rewrite (payload_layout v r Hlen).
  destruct (InstanceID.bytes_of r) as [|b0 [|b1 [|b2 [|b3 [|b4 [|b5 [|b6 [|b7 [|]]]]]]]]];
    try discriminate.
  split; [|split].
  - change (be_value (be_bytes 8 (u64 (Time.Unix (ID.Timestamp v))))
            = u64 (Time.Unix (ID.Timestamp v))).
    rewrite be_value_bytes. apply Z.mod_small. apply u64_range.
  - reflexivity.
  - change (be_value (be_bytes 4 (ID.SequenceID v)) = u32 (ID.SequenceID v)).
    rewrite be_value_bytes. reflexivity.
Qed.

(** The prefix that [Bytes] writes is the one [splitPrefixID] reads. *)
Lemma split_text_prefix (v : ID.t) (body : list Z) :
  prefix_survives v -> underscore ∉ body ->
  exists env,
    splitPrefixID (text_prefix v ++ body) = (env, ID.Resource v, body)
    /\ (if bool_decide (env = []) then Production else env)
       = (if bool_decide (ID.Environment v = []) then Production
          else ID.Environment v).
Proof.
  intros Hprefix Hbody. unfold text_prefix.
  destruct Hprefix as [[Henv Hres]|(Hne & Hnp & Henv & Hres)].
  - exists []. rewrite (bool_decide_eq_true_2 (@nil Z = [])) by reflexivity.
    assert (Hcond : negb (bool_decide (ID.Environment v = []))
                    && negb (bool_decide (ID.Environment v = Production)) = false).
    { destruct Henv as [->| ->]; reflexivity. }
    rewrite Hcond. split.
    + destruct (bool_decide_reflect (ID.Resource v = [])) as [Hr|_].
      * rewrite Hr. apply splitPrefixID_bare, Hbody.
      * cbn [app]. rewrite <- app_assoc. cbn [app].
        apply splitPrefixID_resource; assumption.
    + destruct Henv as [->| ->]; reflexivity.
  - exists (ID.Environment v).
    rewrite !(bool_decide_eq_false_2 _ Hres), (bool_decide_eq_false_2 _ Hne),
      (bool_decide_eq_false_2 _ Hnp).
    cbn [negb andb]. split; [|reflexivity].
    rewrite <- !app_assoc. cbn [app].
    replace (ID.Environment v ++ underscore :: ID.Resource v ++ underscore :: body)
      with ((ID.Environment v ++ underscore :: ID.Resource v) ++ underscore :: body)
      by (rewrite <- app_assoc; reflexivity).
    apply (splitPrefixID_environment (ID.Environment v) (ID.Resource v) body);
      assumption.
Qed.

End TextRoundTrip.

(** ** What [Parse] unpacks *)

Section ParseOutcomes.

(** [Parse] in one equation: the two length checks, the decoder's overflow
    check, then the unpacking of the 21 payload bytes. *)
Lemma Parse_equation (p : positive) (src : list Z) :
  Parse p src
  = (let '(env, res, body) := splitPrefixID src in
     if (length body <? encodedLen)%nat
     then Return (prefix_only env res, Some (ParseError "ksuid too short"))
     else if (encodedLen <? length body)%nat
     then Return (prefix_only env res, Some (ParseError "ksuid too long"))
     else if decoded_number body <? 2 ^ 160
     then Return (unpacked p env res (be_bytes decodedLen (decoded_number body)),
                  (ParseInstanceID p
                     (drop 8 (take 17 (be_bytes decodedLen (decoded_number body))))).2)
     else Return (prefix_only env res,
                  Some (ParseError "invalid base62: output buffer too short"))).
Proof.
  unfold Parse, prefix_only, unpacked.
  destruct (splitPrefixID src) as [[env res] body].
  destruct (Nat.ltb_spec (length body) encodedLen) as [|Hge]; [reflexivity|].
  destruct (Nat.ltb_spec encodedLen (length body)) as [|Hle]; [reflexivity|].
  destruct (fastDecodeBase62_spec (make decodedLen) body) as [Hok Herr];
    [reflexivity|exact Hge|].
  destruct (Z.ltb_spec (decoded_number body) (2 ^ 160)) as [Hlt|Hge'].
  - rewrite (Hok Hlt). cbn [mbind go_bind].
    destruct (ParseInstanceID p _) as [iid err]. reflexivity.
  - destruct (Herr Hge') as [d ->]. reflexivity.
Qed.

Lemma ParseInstanceID_nine (p : positive) (b : list Z) :
  length b = 9%nat ->
  if known_scheme (nth 0 b 0)
  then exists r, ParseInstanceID p b = (Some r, None)
                 /\ InstanceID.addr r = p
                 /\ InstanceID.scheme_of r = nth 0 b 0
  else ParseInstanceID p b = (None, Some (Errorf "unknown node id '%c'" (nth 0 b 0))).
Proof.
  intros Hlen. unfold ParseInstanceID, known_scheme. rewrite Hlen. cbn [Nat.eqb negb].
  assert (Hdrop : length (drop 1 b) = 8%nat) by (rewrite length_drop; lia).
  unfold ParseHardwareID, ParseDockerID, ParseRandomID. rewrite Hdrop. cbn [Nat.eqb negb].
  destruct (Z.eqb_spec (nth 0 b 0) (chr "H")) as [->|_];
    [cbn [orb]; eexists; repeat split; reflexivity|].
  destruct (Z.eqb_spec (nth 0 b 0) (chr "D")) as [->|_];
    [cbn [orb]; eexists; repeat split; reflexivity|].
  destruct (Z.eqb_spec (nth 0 b 0) (chr "R")) as [->|_];
    [cbn [orb]; eexists; repeat split; reflexivity|].
  reflexivity.
Qed.

Lemma payload_slice_length (v : Z) :
  length (drop 8 (take 17 (be_bytes decodedLen v))) = 9%nat.
Proof. rewrite length_drop, length_take, be_bytes_length. reflexivity. Qed.

Lemma payload_scheme_byte (v : Z) :
  nth 0 (drop 8 (take 17 (be_bytes decodedLen v))) 0 = u8 (Z.shiftr v 96).
Proof. reflexivity. Qed.

End ParseOutcomes.

Section ParsedFields.

Lemma be_bytes_u8 (n : nat) (v : Z) : Forall is_u8 (be_bytes n v).
Proof.
  induction n; constructor; [|assumption].
  unfold is_u8, u8, wrap. apply Z.mod_pos_bound. lia.
Qed.

(** The payload layout, read off the number: timestamp, scheme byte,
    fingerprint, sequence. *)
Lemma payload_split (v : Z) :
  be_bytes decodedLen v
  = be_bytes 8 (v ≫ 104) ++ [u8 (v ≫ 96)] ++ be_bytes 8 (v ≫ 32) ++ be_bytes 4 v.
Proof.
  change decodedLen with (17 + 4)%nat. rewrite be_bytes_app.
  change 17%nat with (9 + 8)%nat. rewrite be_bytes_app.
  change 9%nat with (8 + 1)%nat. rewrite be_bytes_app.
  rewrite !Z.shiftr_shiftr by lia.
  change (8 * Z.of_nat 4 + 8 * Z.of_nat 8 + 8 * Z.of_nat 1) with 104.
  change (8 * Z.of_nat 4 + 8 * Z.of_nat 8) with 96.
  change (8 * Z.of_nat 4) with 32.
  cbn [be_bytes]. change (8 * Z.of_nat 0) with 0. rewrite Z.shiftr_0_r.
  rewrite <- !app_assoc. reflexivity.
Qed.

Lemma Return_pair {A B : Type} (a c : A) (b d : B) :
  Return (a, b) = Return (c, d) -> a = c /\ b = d.
Proof. intros [= -> ->]. split; reflexivity. Qed.

Lemma decoded_number_nonneg (s : list Z) : 0 <= decoded_number s.
Proof. apply horner_nonneg, digits_range. Qed.

Lemma payload_unpacked (p : positive) (env res : list Z) (v : Z) :
  0 <= v < 2 ^ 160 ->
  let id := unpacked p env res (be_bytes decodedLen v) in
  ID.Timestamp id = {| Time.sec := v / 2 ^ 104; Time.nsec := 0; Time.loc := UTC |}
  /\ 0 <= v / 2 ^ 104 < 2 ^ 56
  /\ ID.SequenceID id = v mod 2 ^ 32
  /\ ID.InstanceID id
     = (ParseInstanceID p (u8 (v ≫ 96) :: be_bytes 8 (v ≫ 32))).1.
Proof.
  intros Hv. cbv zeta. unfold unpacked.
  cbn [ID.Timestamp ID.SequenceID ID.InstanceID].
  rewrite payload_split.
  assert (Hts : 0 <= v / 2 ^ 104 < 2 ^ 56).
  { split; [apply Z.div_pos; lia|].
    apply Z.div_lt_upper_bound; [lia|]. change (2 ^ 104 * 2 ^ 56) with (2 ^ 160). lia. }
  split; [|split; [exact Hts|split]].
  - unfold Uint64. rewrite take_take. cbn [Nat.min].
    rewrite (take_app_length' (be_bytes 8 (v ≫ 104))) by (rewrite be_bytes_length; reflexivity).
    rewrite be_value_bytes, Z.shiftr_div_pow2 by lia.
    change (256 ^ Z.of_nat 8) with (2 ^ 64).
    rewrite Z.mod_small by lia.
    unfold Time.UTC, time_Unix. cbn [Time.sec Time.nsec].
    rewrite i64_id by (unfold is_i64; lia). reflexivity.
  - unfold Uint32.
    rewrite !app_assoc.
    rewrite drop_app_length' by (rewrite !length_app, !be_bytes_length; reflexivity).
    rewrite take_ge by (rewrite be_bytes_length; lia).
    rewrite be_value_bytes. reflexivity.
  - rewrite (app_assoc _ (be_bytes 8 (v ≫ 32))), (app_assoc (be_bytes 8 (v ≫ 104))).
    rewrite take_app_length' by (rewrite !length_app, !be_bytes_length; reflexivity).
    rewrite drop_app_length' by (rewrite be_bytes_length; reflexivity).
    reflexivity.
Qed.

End ParsedFields.

(** ** The round trip through the text *)

Section StoredPayload.

(** A successful [Parse] returns a whole second from the Unix epoch to
    below 2^56 seconds, whatever the text. *)
Lemma Parse_success_timestamp (p : positive) (src : list Z) (id : ID.t) :
  Parse p src = Return (id, None) -> storable (ID.Timestamp id).
Proof.
  intros HParse. rewrite Parse_equation in HParse.
  destruct (splitPrefixID src) as [[env res] body].
  destruct (length body <? encodedLen)%nat; [discriminate|].
  destruct (encodedLen <? length body)%nat; [discriminate|].
  pose proof (decoded_number_nonneg body) as Hnonneg.
  destruct (Z.ltb_spec (decoded_number body) (2 ^ 160)) as [Hlt|]; [|discriminate].
  set (n := decoded_number body) in *.
  apply Return_pair in HParse as [Hid _]. subst id.
  destruct (payload_unpacked p env res n (conj Hnonneg Hlt)) as (Hts & Hrange & _).
  rewrite Hts. split; [reflexivity|exact Hrange].
Qed.

(** The decoder reads the number back from its 27 digits behind the
    spacer. *)
Lemma digits_decoded (n : Z) :
  0 <= n < 62 ^ 27 ->
  decoded_number ([chr "0"; chr "0"] ++ map base62Char (to_base62 27 n)) = n.
Proof.
  intros Hn. unfold decoded_number.
  rewrite take_ge
    by (rewrite length_app, length_map, to_base62_length; unfold encodedLen;
        cbn [length]; lia).
  rewrite map_app, map_map.
  change (map base62Value [chr "0"; chr "0"]) with [0; 0].
  rewrite (map_ext_Forall _ id).
  2:{ eapply Forall_impl; [apply to_base62_range|]. intros d Hd. apply base62Value_Char, Hd. }
  rewrite map_id.
  cbn [app]. rewrite !horner_cons, horner_to_base62 by lia.
  change (srcBase ^ Z.of_nat 27) with (62 ^ 27).
  rewrite Z.mod_small by exact Hn. lia.
Qed.

Lemma digits_alphabet (w : nat) (n : Z) :
  Forall is_base62 (map base62Char (to_base62 w n)).
Proof.
  apply Forall_map. eapply Forall_impl; [apply to_base62_range|].
  intros d Hd. apply base62Char_valid, Hd.
Qed.

(** The payload of a storable timestamp is 21 bytes with a leading zero,
    a number below 2^160. *)
Lemma payload_number (v : ID.t) (r : InstanceID.ref) :
  length (InstanceID.bytes_of r) = 8%nat ->
  Forall is_u8 (InstanceID.bytes_of r) ->
  length (payload v r) = decodedLen
  /\ Forall is_u8 (payload v r)
  /\ (storable (ID.Timestamp v) -> 0 <= be_value (payload v r) < 2 ^ 160).
Proof.
  intros Hlen Hbytes. rewrite (payload_layout v r Hlen).
  assert (Hscheme : is_u8 (InstanceID.scheme_of r)).
  { unfold InstanceID.scheme_of. destruct (InstanceID.target r); vm_compute; split; congruence. }
  assert (Hu8 : Forall is_u8
                  (be_bytes 8 (u64 (Time.Unix (ID.Timestamp v)))
                   ++ [InstanceID.scheme_of r] ++ InstanceID.bytes_of r
                   ++ be_bytes 4 (ID.SequenceID v))).
  { apply Forall_app; split; [apply be_bytes_u8|].
    apply Forall_app; split; [apply Forall_cons; split; [exact Hscheme|apply Forall_nil_2]|].
    apply Forall_app; split; [exact Hbytes|apply be_bytes_u8]. }
  assert (Hlen21 : length (be_bytes 8 (u64 (Time.Unix (ID.Timestamp v)))
                           ++ [InstanceID.scheme_of r] ++ InstanceID.bytes_of r
                           ++ be_bytes 4 (ID.SequenceID v)) = decodedLen).
  { rewrite !length_app, !be_bytes_length, Hlen. reflexivity. }
  split; [exact Hlen21|]. split; [exact Hu8|].
  intros [_ Hsec]. split; [apply (be_value_bound _ Hu8)|].
  apply leading_zero_bound; [exact Hlen21|exact Hu8|].
  unfold Time.Unix. rewrite i64_id by (unfold is_i64; lia).
  unfold u64, wrap. rewrite Z.mod_small by lia.
  cbn [be_bytes app hd]. change (8 * Z.of_nat 7) with 56.
  unfold u8, wrap. rewrite Z.shiftr_div_pow2 by lia.
  rewrite Z.div_small by lia. reflexivity.
Qed.

End StoredPayload.

(** C2, as the code has it. Take an identifier with an instance identity
    whose fingerprint is 8 bytes, a 32-bit sequence and prefix fields the
    grammar can carry; and an encoder that keeps the length of its buffer
    and writes the 27 base-62 digits of a payload number that has no more
    at the start of the buffer. Then [Bytes] returns a text, and what
    [Parse] makes of it is decided by the timestamp. If it is a whole
    second from the Unix epoch to below 2^56 seconds, [Parse] succeeds and
    reproduces resource, timestamp, scheme, fingerprint and sequence, and
    the environment with the empty one read as ["prod"]; the result
    [Equal]s the identifier when its environment is not empty. If it has
    nanoseconds, lies before the epoch (as the zero time does) or at 2^56
    seconds or later, no successful [Parse] of the text has the
    identifier's timestamp, whatever the encoder wrote. *)
Theorem Parse_Bytes_roundtrip (enc : list Z -> list Z -> list Z) (p : positive)
    (v : ID.t) (r : InstanceID.ref)
    (Hinst : ID.InstanceID v = Some r)
    (Hfinger : length (InstanceID.bytes_of r) = 8%nat)
    (Hbytes : Forall is_u8 (InstanceID.bytes_of r))
    (Hseq : is_u32 (ID.SequenceID v))
    (Hprefix : prefix_survives v)
    (Hlen : forall y x, length (enc y x) = length y)
    (Henc : be_value (payload v r) < 62 ^ 27 ->
            take 27 (enc (make encodedLen) (payload v r))
            = map base62Char (to_base62 27 (be_value (payload v r)))) :
  exists text,
    ID.Bytes enc v = Return text
    /\ (storable (ID.Timestamp v) ->
        exists id r',
          Parse p text = Return (id, None)
          /\ ID.Environment id
             = (if bool_decide (ID.Environment v = []) then Production
                else ID.Environment v)
          /\ ID.Resource id = ID.Resource v
          /\ Time.Equal (ID.Timestamp id) (ID.Timestamp v) = true
          /\ ID.InstanceID id = Some r'
          /\ InstanceID.scheme_of r' = InstanceID.scheme_of r
          /\ InstanceID.bytes_of r' = InstanceID.bytes_of r
          /\ ID.SequenceID id = ID.SequenceID v
          /\ (ID.Environment v <> [] -> ID.Equal id v = true))
    /\ (~ storable (ID.Timestamp v) ->
        forall id,
          Parse p text = Return (id, None) ->
          Time.Equal (ID.Timestamp id) (ID.Timestamp v) = false).
Proof.
  exists (text_prefix v ++ [chr "0"; chr "0"]
          ++ take 27 (enc (make encodedLen) (payload v r))).
  split; [exact (Bytes_present enc v r Hinst Hlen)|]. split.
  - intros Hstored.
    destruct (payload_number v r Hfinger Hbytes) as (Hpay_len & Hpay_u8 & Hnum).
    specialize (Hnum Hstored).
    assert (Hfit : be_value (payload v r) < 62 ^ 27) by lia.
    rewrite (Henc Hfit).
    set (body := [chr "0"; chr "0"]
                 ++ map base62Char (to_base62 27 (be_value (payload v r)))).
    assert (Hbody_len : length body = encodedLen).
    { unfold body. rewrite length_app, length_map, to_base62_length. reflexivity. }
    assert (Hbody : underscore ∉ body).
    { unfold body. apply not_elem_of_app. split.
      - intros H. repeat (apply elem_of_cons in H as [H|H]; [discriminate|]).
        apply elem_of_nil in H. exact H.
      - intros H. pose proof (digits_alphabet 27 (be_value (payload v r))) as Halpha.
        rewrite Forall_forall in Halpha.
        apply (base62_not_underscore underscore); [apply Halpha, H|reflexivity]. }
    assert (Hnumber : decoded_number body = be_value (payload v r))
      by (apply digits_decoded; lia).
    assert (Hdecode : fastDecodeBase62 (make decodedLen) body
                      = Return (payload v r, None)).
    { destruct (fastDecodeBase62_spec (make decodedLen) body) as [Hok _];
        [reflexivity|rewrite Hbody_len; reflexivity|].
      rewrite Hok by (rewrite Hnumber; lia).
      rewrite Hnumber, <- Hpay_len, (be_bytes_value _ Hpay_u8). reflexivity. }
    destruct (split_text_prefix v body Hprefix Hbody) as (env & Hsplit & Henv).
    destruct (payload_fields v r Hfinger) as (Hts & Hiid & Hsq).
    destruct (ParseInstanceID_bytes_of p r Hfinger) as (r' & Hparse & Hscheme & Hfp).
    destruct Hstored as [Hnsec Hsec].
    assert (Hi64 : is_i64 (Time.sec (ID.Timestamp v))) by (unfold is_i64; lia).
    assert (Htime : Time.Equal
                      (Time.UTC (time_Unix (i64 (Uint64 (take 8 (payload v r)))) 0))
                      (ID.Timestamp v) = true).
    { unfold Time.Equal, Time.UTC, time_Unix, Time.Unix in *. cbn [Time.sec Time.nsec].
      rewrite Hts, (i64_id _ Hi64), (i64_u64 _ Hi64), Hnsec, !Z.eqb_refl. reflexivity. }
    assert (Hsq' : Uint32 (drop 17 (payload v r)) = ID.SequenceID v).
    { rewrite Hsq. unfold u32, wrap, is_u32 in *. apply Z.mod_small. exact Hseq. }
    eexists. exists r'. split.
    { unfold Parse. rewrite Hsplit, Hbody_len.
      cbn [Nat.ltb Nat.leb encodedLen].
      rewrite Hdecode. cbn [mbind go_bind].
      rewrite Hiid, Hparse. reflexivity. }
    cbn [ID.Environment ID.Resource ID.Timestamp ID.InstanceID ID.SequenceID].
    repeat split; try assumption; try reflexivity.
    intros Hne. unfold ID.Equal.
    cbn [ID.Environment ID.Resource ID.Timestamp ID.InstanceID ID.SequenceID].
    rewrite Hinst, Henv, (bool_decide_eq_false_2 _ Hne), Hscheme, Hfp, Htime, Hsq'.
    rewrite !bool_decide_eq_true_2, !Z.eqb_refl by reflexivity. reflexivity.
  - intros Hnot id HParse.
    destruct (Parse_success_timestamp p _ id HParse) as [Hnsec Hsec].
    apply not_true_is_false. intros Heq. apply Hnot.
    unfold Time.Equal in Heq. apply andb_prop in Heq as [H1 H2].
    apply Z.eqb_eq in H1, H2. unfold storable. rewrite <- H1, <- H2.
    split; [exact Hnsec|exact Hsec].
Qed.

Lemma Parse_Bytes_roundtrip_witness :
  exists text id r',
    ID.Bytes example_Encode example_id = Return text
    /\ Parse 1 text = Return (id, None)
    /\ ID.Environment id = ID.Environment example_id
    /\ ID.Resource id = ID.Resource example_id
    /\ Time.Equal (ID.Timestamp id) (ID.Timestamp example_id) = true
    /\ ID.InstanceID id = Some r'
    /\ InstanceID.scheme_of r' = InstanceID.scheme_of example_ref
    /\ InstanceID.bytes_of r' = InstanceID.bytes_of example_ref
    /\ ID.SequenceID id = ID.SequenceID example_id
    /\ ID.Equal id example_id = true.
Proof.
  destruct (Parse_Bytes_roundtrip example_Encode 1 example_id example_ref)
    as (text & HBytes & Hback & _).
  - reflexivity.
  - reflexivity.
  - unfold is_u8. repeat constructor; vm_compute; congruence.
  - split; [discriminate|reflexivity].
  - right. split; [discriminate|]. split; [discriminate|].
    split; [|discriminate]. intros H.
    repeat (apply elem_of_cons in H as [H|H]; [discriminate|]).
    apply elem_of_nil in H. exact H.
  - apply example_Encode_length.
  - intros _. reflexivity.
  - destruct Hback as (id & r' & HParse & Henv & Hres & Hts & Hiid & Hsch & Hfp & Hsq & Heq).
    { split; [reflexivity|]. split; [discriminate|reflexivity]. }
    exists text, id, r'.
    repeat (split; [assumption|]). apply Heq. discriminate.
Defined.

(** C2, the claim as stated fails, in each of the ways the statement
    above excludes; the encoder writes the texts of the package's tests.
    The identifier "BareEnvironment" of those tests has the environment
    ["test"] and no resource: [Bytes] writes no prefix for it, and [Parse]
    of the text succeeds with the environment ["prod"]. An empty
    environment comes back as ["prod"] as well. A resource ["a_b"] comes
    back as the environment ["a"] and the resource ["b"]. The second before
    the Unix epoch has a payload of 2^160 or more, and [Parse] rejects the
    text. Half a second past a second comes back as the whole second. None
    of the results [Equal]s the identifier. *)
Lemma Parse_Bytes_counterexample :
  (ID.Bytes example_Encode example_bare = Return example_body
   /\ Parse 1 example_body = Return (example_bare_parsed, None)
   /\ ID.Environment example_bare = bytes "test"
   /\ ID.Environment example_bare_parsed = bytes "prod"
   /\ ID.Equal example_bare_parsed example_bare = false)
  /\ (ID.Bytes example_Encode example_blank
      = Return (bytes "user_000000BPG6Lks9tQoAiJYrBRSXPX6")
      /\ Parse 1 (bytes "user_000000BPG6Lks9tQoAiJYrBRSXPX6")
         = Return (example_at Production (bytes "user") 1522947222 0, None)
      /\ ID.Equal (example_at Production (bytes "user") 1522947222 0) example_blank
         = false)
  /\ (ID.Bytes example_Encode example_underscore
      = Return (bytes "a_b_000000BPG6Lks9tQoAiJYrBRSXPX6")
      /\ Parse 1 (bytes "a_b_000000BPG6Lks9tQoAiJYrBRSXPX6")
         = Return (example_at (bytes "a") (bytes "b") 1522947222 0, None)
      /\ ID.Equal (example_at (bytes "a") (bytes "b") 1522947222 0) example_underscore
         = false)
  /\ (ID.Bytes example_Encode example_early
      = Return (bytes "user_00owNVCsBqKokgBVO0bLxH510DFR2")
      /\ Parse 1 (bytes "user_00owNVCsBqKokgBVO0bLxH510DFR2")
         = Return (prefix_only [] (bytes "user"),
                   Some (ParseError "invalid base62: output buffer too short")))
  /\ (ID.Bytes example_Encode example_subsecond
      = Return (bytes "user_000000BPG6Lks9tQoAiJYrBRSXPX6")
      /\ Parse 1 (bytes "user_000000BPG6Lks9tQoAiJYrBRSXPX6")
         = Return (example_at Production (bytes "user") 1522947222 0, None)
      /\ ID.Equal (example_at Production (bytes "user") 1522947222 0) example_subsecond
         = false).
Proof. vm_compute. repeat split; reflexivity. Qed.

(** * Further properties of the code *)

(** ** What [Parse] returns *)


(** X1. [Parse] never panics and has exactly five outcomes, decided in
    this order by the body behind the last underscore: shorter than 29
    bytes, "ksuid too short"; longer, "ksuid too long"; a number of 2^160
    or more, "invalid base62: output buffer too short"; a scheme byte
    (bits 96..103 of the number) other than H, D, R, the "unknown node id"
    error of the instance parser; otherwise success, with an instance
    identity allocated at [p] whose scheme is that byte. *)
Theorem Parse_outcomes (p : positive) (src : list Z) :
  exists id err,
    Parse p src = Return (id, err)
    /\ (let body := (splitPrefixID src).2 in
        let scheme := u8 (Z.shiftr (decoded_number body) 96) in
        ((length body < 29)%nat /\ err = Some (ParseError "ksuid too short"))
        \/ ((29 < length body)%nat /\ err = Some (ParseError "ksuid too long"))
        \/ (length body = 29%nat /\ 2 ^ 160 <= decoded_number body
            /\ err = Some (ParseError "invalid base62: output buffer too short"))
        \/ (length body = 29%nat /\ decoded_number body < 2 ^ 160
            /\ known_scheme scheme = false
            /\ err = Some (Errorf "unknown node id '%c'" scheme)
            /\ ID.InstanceID id = None)
        \/ (length body = 29%nat /\ decoded_number body < 2 ^ 160
            /\ known_scheme scheme = true
            /\ err = None
            /\ exists r, ID.InstanceID id = Some r
                         /\ InstanceID.addr r = p
                         /\ InstanceID.scheme_of r = scheme)).
Proof.
  rewrite Parse_equation. destruct (splitPrefixID src) as [[env res] body]. cbn [snd].
  unfold encodedLen.
  destruct (Nat.ltb_spec (length body) 29) as [Hshort|Hge]; [eauto 6|].
  destruct (Nat.ltb_spec 29 (length body)) as [Hlong|Hle]; [eauto 7|].
  assert (Hlen : length body = 29%nat) by lia.
  destruct (Z.ltb_spec (decoded_number body) (2 ^ 160)) as [Hlt|Hge'];
    [|do 2 eexists; split; [reflexivity|]; right; right; left; auto].
  pose proof (ParseInstanceID_nine p _ (payload_slice_length (decoded_number body)))
    as Hiid.
  rewrite payload_scheme_byte in Hiid.
  do 2 eexists. split; [reflexivity|]. cbn [unpacked ID.InstanceID].
  destruct (known_scheme (u8 (decoded_number body ≫ 96))).
  - destruct Hiid as (r & -> & Haddr & Hscheme). do 4 right.
    repeat split; try assumption. exists r. auto.
  - rewrite Hiid. right; right; right; left. auto.
Qed.

(** ** Instance identities and their nine bytes *)

Section InstanceBytes.

Lemma known_scheme_cases (c : Z) :
  known_scheme c = true -> c = chr "H" \/ c = chr "D" \/ c = chr "R".
Proof.
  unfold known_scheme. intros H.
  apply orb_prop in H as [H|H]; [apply orb_prop in H as [H|H]|];
    apply Z.eqb_eq in H; auto.
Qed.

Lemma two_bytes_back (x y : Z) :
  is_u8 x -> is_u8 y -> be_bytes 2 (Uint16 [x; y]) = [x; y].
Proof.
  intros Hx Hy. unfold Uint16. cbn [take].
  apply (be_bytes_value [x; y]).
  apply Forall_cons; split; [exact Hx|]. apply Forall_cons; split; [exact Hy|].
  apply Forall_nil_2.
Qed.

(** Parsing nine bytes and serializing the result gives the bytes back. *)
Lemma ParseInstanceID_serialize (p : positive) (c : Z) (B : list Z) :
  length B = 8%nat -> Forall is_u8 B -> known_scheme c = true ->
  exists r,
    ParseInstanceID p (c :: B) = (Some r, None)
    /\ InstanceID.addr r = p
    /\ InstanceID.scheme_of r = c
    /\ InstanceID.bytes_of r = B.
Proof.
  intros Hlen HB Hc.
  destruct B as [|b0 [|b1 [|b2 [|b3 [|b4 [|b5 [|b6 [|b7 [|]]]]]]]]]; try discriminate.
  assert (H67 : be_bytes 2 (Uint16 [b6; b7]) = [b6; b7]).
  { repeat (apply Forall_cons in HB as [? HB]). apply two_bytes_back; assumption. }
  destruct (known_scheme_cases c Hc) as [->|[->| ->]];
    (eexists; split; [reflexivity|]; split; [reflexivity|]; split; [reflexivity|]).
  - unfold InstanceID.bytes_of, HardwareID.Bytes, PutUint16_at. cbn [InstanceID.target].
    cbn [HardwareID.MachineID HardwareID.ProcessID drop take].
    unfold copy_at, copy, make. cbn [take drop length app replicate].
    rewrite be_bytes_length. cbn [drop]. rewrite H67. reflexivity.
  - reflexivity.
  - reflexivity.
Qed.

End InstanceBytes.

(** X2. The nine bytes of an instance identity (scheme byte and 8-byte
    fingerprint) and [ParseInstanceID] are inverse to each other: parsing
    the scheme and fingerprint of a reference gives a reference with the
    same scheme and fingerprint, and parsing nine bytes that start with H,
    D or R gives a reference whose scheme and fingerprint are those bytes.
    Any other length or scheme byte is an error with a [nil] identity. *)
Theorem ParseInstanceID_inverse (p : positive) (r : InstanceID.ref) (c : Z)
    (B b : list Z)
    (Hfinger : length (InstanceID.bytes_of r) = 8%nat)
    (HB : length B = 8%nat) (Hbytes : Forall is_u8 B)
    (Hc : known_scheme c = true)
    (Hbad : length b <> 9%nat \/ known_scheme (nth 0 b 0) = false) :
  (exists r',
     ParseInstanceID p (InstanceID.scheme_of r :: InstanceID.bytes_of r) = (Some r', None)
     /\ InstanceID.scheme_of r' = InstanceID.scheme_of r
     /\ InstanceID.bytes_of r' = InstanceID.bytes_of r)
  /\ (exists r',
        ParseInstanceID p (c :: B) = (Some r', None)
        /\ InstanceID.addr r' = p
        /\ InstanceID.scheme_of r' = c
        /\ InstanceID.bytes_of r' = B)
  /\ (exists e, ParseInstanceID p b = (None, Some e)).
Proof.
  split; [exact (ParseInstanceID_bytes_of p r Hfinger)|].
  split; [exact (ParseInstanceID_serialize p c B HB Hbytes Hc)|].
  destruct (Nat.eq_dec (length b) 9%nat) as [Hlen|Hlen].
  - destruct Hbad as [Hbad|Hbad]; [contradiction|].
    pose proof (ParseInstanceID_nine p b Hlen) as H. rewrite Hbad in H. eauto.
  - unfold ParseInstanceID.
    replace (length b =? 9)%nat with false by (symmetry; apply Nat.eqb_neq; exact Hlen).
    eauto.
Qed.

Lemma ParseInstanceID_inverse_witness :
  (exists r',
     ParseInstanceID 2 (InstanceID.scheme_of example_ref
                        :: InstanceID.bytes_of example_ref) = (Some r', None)
     /\ InstanceID.scheme_of r' = InstanceID.scheme_of example_ref
     /\ InstanceID.bytes_of r' = InstanceID.bytes_of example_ref)
  /\ (exists r',
        ParseInstanceID 2 (chr "D" :: [1; 2; 3; 4; 5; 6; 7; 8]) = (Some r', None)
        /\ InstanceID.addr r' = 2%positive
        /\ InstanceID.scheme_of r' = chr "D"
        /\ InstanceID.bytes_of r' = [1; 2; 3; 4; 5; 6; 7; 8])
  /\ (exists e, ParseInstanceID 2 (bytes "X12345678") = (None, Some e)).
Proof.
  apply (ParseInstanceID_inverse 2 example_ref (chr "D") [1; 2; 3; 4; 5; 6; 7; 8]
           (bytes "X12345678")).
  - reflexivity.
  - reflexivity.
  - unfold is_u8. repeat constructor; lia.
  - reflexivity.
  - right. reflexivity.
Defined.

(** ** The fields of a parsed identifier *)


Section ParsedNumber.

Lemma Parse_fields (p : positive) (src : list Z) (id : ID.t)
    (HParse : Parse p src = Return (id, None)) :
  let v := decoded_number (splitPrefixID src).2 in
  0 <= v < 2 ^ 160
  /\ ID.Timestamp id = {| Time.sec := v / 2 ^ 104; Time.nsec := 0; Time.loc := UTC |}
  /\ 0 <= v / 2 ^ 104 < 2 ^ 56
  /\ ID.SequenceID id = v mod 2 ^ 32
  /\ exists r,
       ID.InstanceID id = Some r
       /\ InstanceID.addr r = p
       /\ InstanceID.scheme_of r = (v / 2 ^ 96) mod 256
       /\ InstanceID.bytes_of r = be_bytes 8 (v / 2 ^ 32).
Proof.
  rewrite Parse_equation in HParse.
  destruct (splitPrefixID src) as [[env res] body]. cbn [snd].
  destruct (length body <? encodedLen)%nat; [discriminate|].
  destruct (encodedLen <? length body)%nat; [discriminate|].
  pose proof (decoded_number_nonneg body) as Hnonneg.
  destruct (Z.ltb_spec (decoded_number body) (2 ^ 160)) as [Hlt|]; [|discriminate].
  set (v := decoded_number body) in *.
  apply Return_pair in HParse as [Hid Herr]. subst id.
  destruct (payload_unpacked p env res v (conj Hnonneg Hlt)) as (Hts & Hrange & Hseq & Hiid).
  split; [auto|]. split; [exact Hts|]. split; [exact Hrange|]. split; [exact Hseq|].
  rewrite Hiid.
  rewrite payload_split in Herr.
  rewrite (app_assoc _ (be_bytes 8 (v ≫ 32))), (app_assoc (be_bytes 8 (v ≫ 104))) in Herr.
  rewrite take_app_length' in Herr by (rewrite !length_app, !be_bytes_length; reflexivity).
  rewrite drop_app_length' in Herr by (rewrite be_bytes_length; reflexivity).
  cbn [app] in Herr.
  assert (Hlen9 : length (u8 (v ≫ 96) :: be_bytes 8 (v ≫ 32)) = 9%nat)
    by (cbn [length]; rewrite be_bytes_length; reflexivity).
  pose proof (ParseInstanceID_nine p _ Hlen9) as Hnine. cbn [nth] in Hnine.
  destruct (known_scheme (u8 (v ≫ 96))) eqn:Hknown;
    [|rewrite Hnine in Herr; discriminate].
  destruct (ParseInstanceID_serialize p (u8 (v ≫ 96)) (be_bytes 8 (v ≫ 32)))
    as (r & Hr & Haddr & Hscheme & Hbytes);
    [apply be_bytes_length|apply be_bytes_u8|exact Hknown|].
  exists r. rewrite Hr. cbn [fst].
  rewrite Hscheme, Hbytes, !Z.shiftr_div_pow2 by lia.
  repeat split; try assumption; reflexivity.
Qed.

Lemma Parse_success_length (p : positive) (src : list Z) (id : ID.t) :
  Parse p src = Return (id, None) -> length (splitPrefixID src).2 = encodedLen.
Proof.
  intros HParse. rewrite Parse_equation in HParse.
  destruct (splitPrefixID src) as [[env res] body]. cbn [snd].
  destruct (Nat.ltb_spec (length body) encodedLen); [discriminate|].
  destruct (Nat.ltb_spec encodedLen (length body)); [discriminate|]. lia.
Qed.

End ParsedNumber.

(** X3. The fields of a successfully parsed identifier are the digits'
    number v read in the payload layout: v is below 2^160, the timestamp is
    the whole second v / 2^104 in UTC (so it is never negative and stays
    below 2^56), the sequence is v mod 2^32, and the instance identity,
    allocated at [p], has the scheme byte (v / 2^96) mod 256 and the
    fingerprint bytes of v / 2^32. *)
Theorem Parse_success_fields (p : positive) (src : list Z) (id : ID.t)
    (HParse : Parse p src = Return (id, None)) :
  let v := decoded_number (splitPrefixID src).2 in
  0 <= v < 2 ^ 160
  /\ ID.Timestamp id = {| Time.sec := v / 2 ^ 104; Time.nsec := 0; Time.loc := UTC |}
  /\ 0 <= v / 2 ^ 104 < 2 ^ 56
  /\ ID.SequenceID id = v mod 2 ^ 32
  /\ exists r,
       ID.InstanceID id = Some r
       /\ InstanceID.addr r = p
       /\ InstanceID.scheme_of r = (v / 2 ^ 96) mod 256
       /\ InstanceID.bytes_of r = be_bytes 8 (v / 2 ^ 32).
Proof. exact (Parse_fields p src id HParse). Qed.

Lemma Parse_success_fields_witness :
  ID.Timestamp example_id
  = {| Time.sec := decoded_number example_body / 2 ^ 104;
       Time.nsec := 0; Time.loc := UTC |}
  /\ ID.SequenceID example_id = decoded_number example_body mod 2 ^ 32.
Proof.
  destruct (Parse_success_fields 1 (bytes "test_user_000000BPG6Lks9tQoAiJYrBRSXPX6")
              example_id) as (_ & Hts & _ & Hseq & _).
  - vm_compute. reflexivity.
  - split; [exact Hts|exact Hseq].
Defined.

(** X4. [Parse] never returns the zero identifier, not even beside an
    error: the environment of what it returns is never empty, so [IsZero]
    is false. Beside one of its three own errors the identifier has the
    prefix fields of the input and nothing else. *)
Theorem Parse_never_zero (p : positive) (src : list Z) :
  exists id err,
    Parse p src = Return (id, err)
    /\ ID.Environment id <> []
    /\ ID.IsZero id = false
    /\ (forall msg, err = Some (ParseError msg) ->
        id = prefix_only (splitPrefixID src).1.1 (splitPrefixID src).1.2).
Proof.
  rewrite Parse_equation. destruct (splitPrefixID src) as [[env res] body]. cbn [fst snd].
  assert (Henv : (if bool_decide (env = []) then Production else env) <> []).
  { destruct (bool_decide_reflect (env = [])); [discriminate|assumption]. }
  assert (Hzero : forall id,
             ID.Environment id = (if bool_decide (env = []) then Production else env) ->
             ID.Environment id <> [] /\ ID.IsZero id = false).
  { intros id Hid. rewrite <- Hid in Henv. split; [exact Henv|].
    unfold ID.IsZero. rewrite (bool_decide_eq_false_2 _ Henv). reflexivity. }
  destruct (length body <? encodedLen)%nat;
    [do 2 eexists; split; [reflexivity|];
     destruct (Hzero (prefix_only env res) eq_refl); auto|].
  destruct (encodedLen <? length body)%nat;
    [do 2 eexists; split; [reflexivity|];
     destruct (Hzero (prefix_only env res) eq_refl); auto|].
  destruct (decoded_number body <? 2 ^ 160);
    [|do 2 eexists; split; [reflexivity|];
      destruct (Hzero (prefix_only env res) eq_refl); auto].
  do 2 eexists. split; [reflexivity|].
  destruct (Hzero (unpacked p env res (be_bytes decodedLen (decoded_number body))) eq_refl)
    as [H1 H2].
  split; [exact H1|]. split; [exact H2|].
  intros msg Hmsg. exfalso.
  pose proof (ParseInstanceID_nine p _ (payload_slice_length (decoded_number body))) as Hnine.
  destruct (known_scheme _).
  - destruct Hnine as (r & Hr & _). rewrite Hr in Hmsg. discriminate.
  - rewrite Hnine in Hmsg. discriminate.
Qed.

(** ** The shape of a split *)

Section SplitShape.

Lemma IndexByte_found (s : list Z) (c : Z) :
  forall j, IndexByte s c = Some j ->
            s = take j s ++ c :: drop (S j) s /\ c ∉ take j s.
Proof.
  induction s as [|x s IH]; intros j; cbn [IndexByte]; [discriminate|].
  destruct (Z.eqb_spec x c) as [->|Hx].
  - intros [= <-]. cbn [take drop app]. rewrite drop_0. split; [reflexivity|].
    apply not_elem_of_nil.
  - destruct (IndexByte s c) as [k|]; [|discriminate]. intros [= <-].
    destruct (IH k eq_refl) as [Hs Hk]. cbn [take drop app]. split.
    + f_equal. exact Hs.
    + apply not_elem_of_cons. split; [congruence|exact Hk].
Qed.

Lemma IndexByte_missing (s : list Z) (c : Z) : IndexByte s c = None -> c ∉ s.
Proof.
  induction s as [|x s IH]; cbn [IndexByte]; intros H; [apply not_elem_of_nil|].
  destruct (Z.eqb_spec x c) as [|Hx]; [discriminate|].
  destruct (IndexByte s c); [discriminate|].
  apply not_elem_of_cons. split; [congruence|apply IH; reflexivity].
Qed.

Lemma LastIndexByte_missing (s : list Z) (c : Z) : LastIndexByte s c = None -> c ∉ s.
Proof.
  induction s as [|x s IH]; cbn [LastIndexByte]; intros H; [apply not_elem_of_nil|].
  destruct (LastIndexByte s c); [discriminate|].
  destruct (Z.eqb_spec x c) as [|Hx]; [discriminate|].
  apply not_elem_of_cons. split; [congruence|apply IH; reflexivity].
Qed.

Lemma LastIndexByte_found (s : list Z) (c : Z) :
  forall i, LastIndexByte s c = Some i ->
            s = take i s ++ c :: drop (S i) s /\ c ∉ drop (S i) s.
Proof.
  induction s as [|x s IH]; intros i; cbn [LastIndexByte]; [discriminate|].
  destruct (LastIndexByte s c) as [k|] eqn:E.
  - intros [= <-]. destruct (IH k eq_refl) as [Hs Hk]. cbn [take drop app]. split.
    + f_equal. exact Hs.
    + exact Hk.
  - destruct (Z.eqb_spec x c) as [->|]; [|discriminate]. intros [= <-].
    cbn [take drop app]. rewrite drop_0. split; [reflexivity|].
    apply LastIndexByte_missing, E.
Qed.

End SplitShape.

(** X5. What [splitPrefixID] returns, for every input: the body and the
    environment never hold an underscore, and the input is the body alone
    (no underscore at all), or resource, underscore, body with an empty
    environment, or environment, underscore, resource, underscore, body.
    Nothing of the input is lost but the separators. *)
Theorem splitPrefixID_shape (s : list Z) :
  let '(env, res, body) := splitPrefixID s in
  (underscore ∉ body)
  /\ (underscore ∉ env)
  /\ ((env = [] /\ res = [] /\ s = body)
      \/ (env = [] /\ (underscore ∉ res) /\ s = res ++ underscore :: body)
      \/ s = env ++ underscore :: res ++ underscore :: body).
Proof.
  unfold splitPrefixID.
  destruct (LastIndexByte s underscore) as [i|] eqn:Hlast.
  - destruct (LastIndexByte_found s _ i Hlast) as [Hs Hbody].
    replace (i + 1)%nat with (S i) by lia.
    destruct (IndexByte (take i s) underscore) as [j|] eqn:Hfirst.
    + destruct (IndexByte_found _ _ j Hfirst) as [Hraw Henv].
      assert (Hj : (j <= i)%nat).
      { destruct (Nat.le_gt_cases j i) as [|Hgt]; [assumption|].
        exfalso. rewrite take_take in Henv.
        replace (j `min` i)%nat with i in Henv by lia.
        rewrite take_take in Hraw. replace (j `min` i)%nat with i in Hraw by lia.
        assert (Hlen : length (take i s) = length (take i s ++ underscore :: drop (S j) (take i s)))
          by (rewrite <- Hraw; reflexivity).
        rewrite length_app in Hlen. simpl in Hlen. lia. }
      rewrite take_take in Hraw, Henv.
      replace (j `min` i)%nat with j in Hraw, Henv by lia.
      replace (j + 1)%nat with (S j) by lia.
      split; [exact Hbody|]. split; [exact Henv|]. right. right.
      rewrite Hs at 1. rewrite Hraw at 1. rewrite <- app_assoc. reflexivity.
    + split; [exact Hbody|]. split; [apply not_elem_of_nil|]. right. left.
      split; [reflexivity|]. split; [apply IndexByte_missing, Hfirst|exact Hs].
  - split; [apply LastIndexByte_missing, Hlast|]. split; [apply not_elem_of_nil|].
    left. auto.
Qed.

(** ** The order of texts and the order of numbers *)

Section TextOrder.

Lemma base62Value_monotone (c1 c2 : Z) :
  is_base62 c1 -> is_base62 c2 ->
  (c1 < c2 <-> base62Value c1 < base62Value c2).
Proof.
  unfold is_base62. intros H1 H2.
  assert (H : forallb (fun x => forallb (fun y =>
                Bool.eqb (x <? y) (base62Value x <? base62Value y))
                (bytes base62Characters)) (bytes base62Characters) = true)
    by (vm_compute; reflexivity).
  rewrite forallb_forall in H. specialize (H c1 H1).
  rewrite forallb_forall in H. specialize (H c2 H2).
  apply Bool.eqb_prop in H.
  destruct (Z.ltb_spec c1 c2), (Z.ltb_spec (base62Value c1) (base62Value c2));
    try discriminate; lia.
Qed.

Lemma base62Value_injective (c1 c2 : Z) :
  is_base62 c1 -> is_base62 c2 -> base62Value c1 = base62Value c2 -> c1 = c2.
Proof.
  intros H1 H2 Heq.
  pose proof (base62Value_monotone c1 c2 H1 H2).
  pose proof (base62Value_monotone c2 c1 H2 H1). lia.
Qed.

Lemma horner_bound (ds : list Z) :
  Forall (fun d => 0 <= d < 62) ds -> 0 <= horner ds < srcBase ^ Z.of_nat (length ds).
Proof.
  induction ds as [|d ds IH] using rev_ind; intros Hds.
  - change (horner []) with 0. simpl. lia.
  - apply Forall_app in Hds as [Hds Hd]. inversion Hd as [|? ? Hd' _]; subst.
    specialize (IH Hds). rewrite horner_snoc, length_app, Nat2Z.inj_add.
    cbn [length]. change (Z.of_nat 1) with 1.
    rewrite Z.pow_add_r, Z.pow_1_r by lia. unfold srcBase in *. nia.
Qed.

(** Numbers of equal width compare digit by digit from the left. *)
Lemma horner_lex (xs : list Z) :
  forall ys,
    length xs = length ys ->
    Forall (fun d => 0 <= d < 62) xs -> Forall (fun d => 0 <= d < 62) ys ->
    (lex_lt xs ys <-> horner xs < horner ys).
Proof.
  induction xs as [|x xs IH]; intros [|y ys] Hlen Hxs Hys; try discriminate.
  - change (horner []) with 0. cbn [lex_lt]. lia.
  - injection Hlen as Hlen.
    inversion Hxs as [|? ? Hx Hxs']; subst. inversion Hys as [|? ? Hy Hys']; subst.
    cbn [lex_lt]. rewrite (IH ys Hlen Hxs' Hys'), !horner_cons, Hlen.
    pose proof (horner_bound xs Hxs') as Bx. pose proof (horner_bound ys Hys') as By.
    rewrite Hlen in Bx. set (P := srcBase ^ Z.of_nat (length ys)) in *.
    split.
    + intros [Hlt|[-> Hlt]]; nia.
    + intros Hlt. destruct (Z.lt_trichotomy x y) as [|[->|Hgt]]; [left; assumption| |].
      * right. split; [reflexivity|lia].
      * exfalso. nia.
Qed.

Lemma lex_lt_map (s1 : list Z) :
  forall s2,
    Forall is_base62 s1 -> Forall is_base62 s2 ->
    (lex_lt s1 s2 <-> lex_lt (map base62Value s1) (map base62Value s2)).
Proof.
  induction s1 as [|c1 s1 IH]; intros [|c2 s2] H1 H2; cbn [map lex_lt]; try tauto.
  inversion H1 as [|? ? Hc1 H1']; subst. inversion H2 as [|? ? Hc2 H2']; subst.
  rewrite (IH s2 H1' H2'), (base62Value_monotone c1 c2 Hc1 Hc2).
  split; (intros [Hlt|[Heq Hrest]]; [left; exact Hlt|right; split; [|exact Hrest]]).
  - rewrite Heq. reflexivity.
  - apply base62Value_injective; assumption.
Qed.

Lemma text_order (s1 s2 : list Z) :
  length s1 = encodedLen -> length s2 = encodedLen ->
  Forall is_base62 s1 -> Forall is_base62 s2 ->
  (lex_lt s1 s2 <-> decoded_number s1 < decoded_number s2).
Proof.
  intros L1 L2 H1 H2. unfold decoded_number. rewrite !take_ge by lia.
  rewrite (lex_lt_map s1 s2 H1 H2). apply horner_lex.
  - rewrite !length_map. congruence.
  - apply Forall_map. eapply Forall_impl; [exact H1|]. intros c Hc. apply (base62Char_Value c Hc).
  - apply Forall_map. eapply Forall_impl; [exact H2|]. intros c Hc. apply (base62Char_Value c Hc).
Qed.

End TextOrder.

(** X6. The alphabet is in byte order, so texts sort like numbers: for two
    29-character strings over the base-62 alphabet, the first is before
    the second in bytewise (string) order exactly when the number the
    decoder reads from it is the smaller one. *)
Theorem text_order_is_number_order (s1 s2 : list Z)
    (Hlen1 : length s1 = encodedLen) (Hlen2 : length s2 = encodedLen)
    (Halpha1 : Forall is_base62 s1) (Halpha2 : Forall is_base62 s2) :
  lex_lt s1 s2 <-> decoded_number s1 < decoded_number s2.
Proof.
  split; intros H.
  - apply (text_order s1 s2); assumption.
  - apply (text_order s1 s2); assumption.
Qed.

Lemma text_order_is_number_order_witness :
  lex_lt example_body (bytes "000000BPG6Lks9tQoAiJYrBRSXPXz")
  <-> decoded_number example_body
      < decoded_number (bytes "000000BPG6Lks9tQoAiJYrBRSXPXz").
Proof.
  apply (text_order_is_number_order example_body
           (bytes "000000BPG6Lks9tQoAiJYrBRSXPXz")).
  - reflexivity.
  - reflexivity.
  - apply Forall_forall. intros c Hc. apply list_elem_of_In in Hc.
    vm_compute in Hc. unfold is_base62.
    repeat (destruct Hc as [<-|Hc]; [vm_compute; tauto|]). contradiction.
  - apply Forall_forall. intros c Hc. apply list_elem_of_In in Hc.
    vm_compute in Hc. unfold is_base62.
    repeat (destruct Hc as [<-|Hc]; [vm_compute; tauto|]). contradiction.
Defined.


(** ** One node never repeats an identifier *)

Section Uniqueness.

Lemma u32_shift (a j : Z) : u32 (u32 a + j) = u32 (a + j).
Proof. unfold u32, wrap. apply Zplus_mod_idemp_l. Qed.

Lemma u32_apart (a j : Z) : 0 < j < 2 ^ 32 -> u32 (a + j) <> u32 a.
Proof.
  unfold u32, wrap. intros Hj Heq.
  assert (H : (a + j - a) mod 2 ^ 32 = 0)
    by (rewrite Zminus_mod, Heq, Z.sub_diag; reflexivity).
  replace (a + j - a) with j in H by lia.
  rewrite Z.mod_small in H by lia. lia.
Qed.

(** The identifiers of a run carry the recorded time with the sequence
    numbers that follow the recorded one, or a later time. *)
Lemma run_keys (calls : list (Time.t * list Z)) :
  forall n,
    Z.of_nat (length calls) <= 2 ^ 32 ->
    NoDup (map key (Node.run n calls).2)
    /\ Forall (fun id =>
                 (instant (ID.Timestamp id) = instant (Node.ts n)
                  /\ exists j, 0 < j <= Z.of_nat (length calls)
                               /\ ID.SequenceID id = u32 (Node.seq n + j))
                 \/ instant (Node.ts n) < instant (ID.Timestamp id))
              (Node.run n calls).2.
Proof.
  induction calls as [|[now resource] calls IH]; intros n Hroom.
  - cbn. split; constructor.
  - cbn [length] in *. rewrite Nat2Z.inj_succ in *.
    cbn [Node.run].
    destruct (Generate_cases n now resource) as [Hn1 Hid].
    destruct (Node.Generate n now resource) as [n1 id]. cbn [fst snd] in Hn1, Hid.
    destruct (IH n1 ltac:(lia)) as [Hnodup Hall].
    destruct (Node.run n1 calls) as [n2 ids]. cbn [fst snd] in *.
    assert (Hkey : key id = (instant (Node.ts n1), Node.seq n1))
      by (rewrite Hid; reflexivity).
    destruct (Z.gtb_spec (Time.Sub (Time.UTC now) (Node.ts n)) (1 * Time.Second))
      as [Hlate|_].
    + assert (Hafter : instant (Node.ts n) < instant (Node.ts n1)).
      { assert (Hlate' : Time.Sub (Time.UTC now) (Node.ts n) > Time.Second) by lia.
        apply Sub_late in Hlate'. rewrite Hn1. cbn [adopted Node.ts].
        unfold Time.Second in *. lia. }
      assert (Hseq1 : Node.seq n1 = 0) by (rewrite Hn1; reflexivity).
      split.
      * cbn [map]. apply NoDup_cons. split; [|exact Hnodup].
        rewrite Hkey. intros Hin. apply list_elem_of_fmap in Hin as (x & Hx & Hin).
        rewrite Forall_forall in Hall. specialize (Hall x Hin).
        unfold key in Hx. injection Hx as Hts Hsq.
        destruct Hall as [(_ & j & Hj & Hxj)|Hgt]; [|lia].
        rewrite Hseq1 in Hxj, Hsq. rewrite Hxj in Hsq.
        apply (u32_apart 0 j); [lia|]. rewrite <- Hsq. reflexivity.
      * apply Forall_cons. split.
        -- right. rewrite Hid. cbn [ID.Timestamp]. exact Hafter.
        -- eapply Forall_impl; [exact Hall|]. intros x [(Hts & _)|Hgt]; right; lia.
    + assert (Hts1 : Node.ts n1 = Node.ts n) by (rewrite Hn1; reflexivity).
      assert (Hseq1 : Node.seq n1 = u32 (Node.seq n + 1)) by (rewrite Hn1; reflexivity).
      split.
      * cbn [map]. apply NoDup_cons. split; [|exact Hnodup].
        rewrite Hkey. intros Hin. apply list_elem_of_fmap in Hin as (x & Hx & Hin).
        rewrite Forall_forall in Hall. specialize (Hall x Hin).
        unfold key in Hx. injection Hx as Hts Hsq.
        destruct Hall as [(_ & j & Hj & Hxj)|Hgt]; [|lia].
        rewrite Hxj in Hsq.
        apply (u32_apart (Node.seq n1) j); [lia|].
        rewrite <- Hsq, Hseq1. unfold u32, wrap.
        rewrite Z.mod_mod by lia. reflexivity.
      * apply Forall_cons. split.
        -- left. rewrite Hid. cbn [ID.Timestamp ID.SequenceID]. rewrite Hts1.
           split; [reflexivity|]. exists 1. split; [lia|exact Hseq1].
        -- eapply Forall_impl; [exact Hall|]. rewrite Hts1.
           intros x [(Hts & j & Hj & Hxj)|Hgt]; [left|right; exact Hgt].
           split; [exact Hts|]. exists (j + 1). split; [lia|].
           rewrite Hxj, Hseq1, u32_shift. f_equal. lia.
Qed.

Lemma Equal_key (a b : ID.t) : ID.Equal a b = true -> key a = key b.
Proof.
  unfold ID.Equal, key. destruct (ID.InstanceID a), (ID.InstanceID b); try discriminate.
  intros H. repeat (apply andb_prop in H as [H ?]).
  unfold Time.Equal in *.
  match goal with Ht : _ && _ = true |- _ => apply andb_prop in Ht as [Hs Hn] end.
  match goal with Hq : (_ =? _) = true |- _ => apply Z.eqb_eq in Hq; rewrite Hq end.
  apply Z.eqb_eq in Hs, Hn. unfold instant. rewrite Hs, Hn. reflexivity.
Qed.

End Uniqueness.

(** X7. One node never hands out the same identifier twice: in a run of
    at most 2^32 [Generate] calls from any state of the node, whatever the
    clock reads (also when it jumps back), the pairs of timestamp and
    sequence are pairwise different, and no identifier [Equal]s another of
    the run. *)
Theorem Generate_unique (n : Node.t) (calls : list (Time.t * list Z))
    (Hroom : Z.of_nat (length calls) <= 2 ^ 32) :
  NoDup (map stamp (Node.run n calls).2)
  /\ forall i j a b,
       i <> j ->
       (Node.run n calls).2 !! i = Some a ->
       (Node.run n calls).2 !! j = Some b ->
       ID.Equal a b = false.
Proof.
  destruct (run_keys calls n Hroom) as [Hnodup _].
  set (ids := (Node.run n calls).2) in *. split.
  - assert (Hmap : map key ids = map (fun s => (instant s.1, s.2)) (map stamp ids))
      by (rewrite map_map; reflexivity).
    rewrite Hmap in Hnodup. exact (NoDup_fmap_1 _ _ Hnodup).
  - intros i j a b Hij Ha Hb. apply not_true_is_false. intros Heq.
    apply Equal_key in Heq. apply Hij.
    apply (NoDup_lookup (map key ids) i j (key a)); [exact Hnodup| |].
    + change (map key ids) with (key <$> ids). rewrite list_lookup_fmap, Ha. reflexivity.
    + change (map key ids) with (key <$> ids). rewrite list_lookup_fmap, Hb, Heq. reflexivity.
Qed.

Lemma Generate_unique_witness :
  NoDup (map stamp
           (Node.run example_node
              [(reading 1522947222 500000000, bytes "user");
               (reading 1522947223 200000000, bytes "user");
               (reading 1522947221 0, bytes "user");
               (reading 1522947230 0, bytes "user")]).2).
Proof.
  apply (Generate_unique example_node
           [(reading 1522947222 500000000, bytes "user");
            (reading 1522947223 200000000, bytes "user");
            (reading 1522947221 0, bytes "user");
            (reading 1522947230 0, bytes "user")]).
  vm_compute. discriminate.
Defined.

(** ** Texts sort like the identifiers *)

Section Sorting.

(** The number of a payload, from its fields. *)
Lemma number_fields (v : Z) :
  0 <= v ->
  v = v / 2 ^ 104 * 2 ^ 104 + (v / 2 ^ 96) mod 256 * 2 ^ 96
      + (v / 2 ^ 32) mod 2 ^ 64 * 2 ^ 32 + v mod 2 ^ 32.
Proof.
  intros Hv.
  assert (H1 : v = v / 2 ^ 32 * 2 ^ 32 + v mod 2 ^ 32)
    by (pose proof (Z.div_mod v (2 ^ 32)); lia).
  assert (H2 : v / 2 ^ 32 = v / 2 ^ 96 * 2 ^ 64 + (v / 2 ^ 32) mod 2 ^ 64).
  { pose proof (Z.div_mod (v / 2 ^ 32) (2 ^ 64)) as H.
    rewrite Z.div_div in H by lia. change (2 ^ 32 * 2 ^ 64) with (2 ^ 96) in H. lia. }
  assert (H3 : v / 2 ^ 96 = v / 2 ^ 104 * 256 + (v / 2 ^ 96) mod 256).
  { pose proof (Z.div_mod (v / 2 ^ 96) 256) as H.
    rewrite Z.div_div in H by lia. change (2 ^ 96 * 256) with (2 ^ 104) in H. lia. }
  lia.
Qed.

End Sorting.

(** X8. Identifiers sort by time as texts. For two texts that [Parse]
    accepts and whose 29-character bodies are over the base-62 alphabet:
    an earlier timestamp puts the body first in bytewise order, a body
    that comes first has no later timestamp, and with the same timestamp
    and the same instance (scheme and fingerprint) the bodies are in the
    order of the sequence numbers. *)
Theorem Parse_sorts_by_time (p q : positive) (s1 s2 : list Z) (id1 id2 : ID.t)
    (H1 : Parse p s1 = Return (id1, None))
    (H2 : Parse q s2 = Return (id2, None))
    (Halpha1 : Forall is_base62 (splitPrefixID s1).2)
    (Halpha2 : Forall is_base62 (splitPrefixID s2).2) :
  let body1 := (splitPrefixID s1).2 in
  let body2 := (splitPrefixID s2).2 in
  (Time.sec (ID.Timestamp id1) < Time.sec (ID.Timestamp id2) -> lex_lt body1 body2)
  /\ (lex_lt body1 body2 ->
      Time.sec (ID.Timestamp id1) <= Time.sec (ID.Timestamp id2))
  /\ (forall r1 r2,
        Time.sec (ID.Timestamp id1) = Time.sec (ID.Timestamp id2) ->
        ID.InstanceID id1 = Some r1 -> ID.InstanceID id2 = Some r2 ->
        InstanceID.scheme_of r1 = InstanceID.scheme_of r2 ->
        InstanceID.bytes_of r1 = InstanceID.bytes_of r2 ->
        (lex_lt body1 body2 <-> ID.SequenceID id1 < ID.SequenceID id2)).
Proof.
  cbv zeta.
  pose proof (Parse_success_length p s1 id1 H1) as L1.
  pose proof (Parse_success_length q s2 id2 H2) as L2.
  pose proof (text_order _ _ L1 L2 Halpha1 Halpha2) as Horder.
  destruct (Parse_fields p s1 id1 H1) as (Hv1 & Hts1 & _ & Hsq1 & r1 & Hr1 & _ & Hsch1 & Hfp1).
  destruct (Parse_fields q s2 id2 H2) as (Hv2 & Hts2 & _ & Hsq2 & r2 & Hr2 & _ & Hsch2 & Hfp2).
  set (v1 := decoded_number (splitPrefixID s1).2) in *.
  set (v2 := decoded_number (splitPrefixID s2).2) in *.
  rewrite Hts1, Hts2. cbn [Time.sec].
  split; [|split].
  - intros Hlt. apply Horder.
    destruct (Z.lt_ge_cases v1 v2) as [|Hge]; [assumption|].
    exfalso. pose proof (Z.div_le_mono v2 v1 (2 ^ 104) ltac:(lia) Hge). lia.
  - intros Hlex. apply Horder in Hlex. apply Z.div_le_mono; lia.
  - intros r1' r2' Hsec Hr1' Hr2' Hsch Hfp.
    rewrite Hr1 in Hr1'. rewrite Hr2 in Hr2'.
    injection Hr1' as <-. injection Hr2' as <-.
    rewrite Hsch1, Hsch2 in Hsch. rewrite Hfp1, Hfp2 in Hfp.
    apply (f_equal be_value) in Hfp. rewrite !be_value_bytes in Hfp.
    change (256 ^ Z.of_nat 8) with (2 ^ 64) in Hfp.
    rewrite Horder, Hsq1, Hsq2.
    pose proof (number_fields v1 ltac:(lia)) as N1.
    pose proof (number_fields v2 ltac:(lia)) as N2.
    rewrite Hsec, Hsch, Hfp in N1. lia.
Qed.

Lemma Parse_sorts_by_time_witness :
  lex_lt (bytes "000000BPG6Lks9tQoAiJYrBRSXPX6") (bytes "000000BPG6Lks9tQoAiJYrBRSXPX7")
  <-> 0 < 1.
Proof.
  destruct (Parse_sorts_by_time 1 2
              (bytes "user_000000BPG6Lks9tQoAiJYrBRSXPX6")
              (bytes "user_000000BPG6Lks9tQoAiJYrBRSXPX7")
              (example_at Production (bytes "user") 1522947222 0)
              {| ID.Environment := Production; ID.Resource := bytes "user";
                 ID.Timestamp := {| Time.sec := 1522947222; Time.nsec := 0;
                                    Time.loc := UTC |};
                 ID.InstanceID :=
                   Some {| InstanceID.addr := 2;
                           InstanceID.target := InstanceID.target example_ref |};
                 ID.SequenceID := 1 |})
    as (_ & _ & Hseq).
  - vm_compute. reflexivity.
  - vm_compute. reflexivity.
  - apply Forall_forall. intros c Hc. apply list_elem_of_In in Hc.
    vm_compute in Hc. unfold is_base62.
    repeat (destruct Hc as [<-|Hc]; [vm_compute; tauto|]). contradiction.
  - apply Forall_forall. intros c Hc. apply list_elem_of_In in Hc.
    vm_compute in Hc. unfold is_base62.
    repeat (destruct Hc as [<-|Hc]; [vm_compute; tauto|]). contradiction.
  - exact (Hseq example_ref
             {| InstanceID.addr := 2; InstanceID.target := InstanceID.target example_ref |}
             eq_refl eq_refl eq_refl eq_refl eq_refl).
Defined.

(** ** The JSON and database adapters *)

Section Adapters.

Lemma Parse_returns (p : positive) (src : list Z) :
  exists id err, Parse p src = Return (id, err).
Proof.
  rewrite Parse_equation. destruct (splitPrefixID src) as [[env res] body].
  destruct (length body <? encodedLen)%nat; [eauto|].
  destruct (encodedLen <? length body)%nat; [eauto|].
  destruct (decoded_number body <? 2 ^ 160); eauto.
Qed.

Lemma split_body_length (s : list Z) : (length (splitPrefixID s).2 <= length s)%nat.
Proof.
  unfold splitPrefixID. destruct (LastIndexByte s underscore) as [i|]; [|reflexivity].
  destruct (IndexByte (take i s) underscore); cbn [snd]; rewrite length_drop; lia.
Qed.

(** A slice of two or more bytes is a first byte, a middle and a last
    byte. *)
Lemma ends_apart (b : list Z) :
  (2 <= length b)%nat -> exists x l y, b = x :: l ++ [y].
Proof.
  destruct b as [|x b]; [simpl; lia|]. intros Hlen.
  assert (Hne : b <> []) by (intros ->; simpl in Hlen; lia).
  destruct (exists_last Hne) as (l & y & ->). eauto.
Qed.

Lemma UnmarshalJSON_equation (p : positive) (id : ID.t) (x y : Z) (l : list Z) :
  UnmarshalJSON p id (x :: l ++ [y])
  = (if (length l <? encodedLen)%nat
     then Return (id, Some (ParseError "ksuid too short"))
     else if negb (x =? quote) || negb (y =? quote)
     then Return (id, Some (ParseError "expected string"))
     else r ← Parse p l;
          match r.2 with
          | Some err => mret (id, Some err)
          | None => mret (r.1, None)
          end).
Proof.
  unfold UnmarshalJSON.
  assert (Hlen : length (x :: l ++ [y]) = S (S (length l)))
    by (cbn [length]; rewrite length_app; cbn [length]; lia).
  rewrite Hlen. replace (S (S (length l)) - 1)%nat with (S (length l)) by lia.
  replace (S (S (length l)) <? encodedLen + 2)%nat with (length l <? encodedLen)%nat
    by (unfold encodedLen;
        destruct (Nat.ltb_spec (length l) 29), (Nat.ltb_spec (S (S (length l))) (29 + 2));
        (reflexivity || lia)).
  change (nth 0 (x :: l ++ [y]) 0) with x.
  change (nth (S (length l)) (x :: l ++ [y]) 0) with (nth (length l) (l ++ [y]) 0).
  rewrite app_nth2, Nat.sub_diag by lia. cbn [nth].
  change (take (S (length l)) (x :: l ++ [y])) with (x :: take (length l) (l ++ [y])).
  rewrite take_app_length. cbn [drop]. rewrite drop_0. reflexivity.
Qed.

(** The quotes [MarshalJSON] puts around a text. *)
Lemma quotes_around (b : list Z) :
  let x := copy_at 1 (<[0%nat := quote]> (make (length b + 2))) b in
  <[(length x - 1)%nat := quote]> x = quote :: b ++ [quote].
Proof.
  cbv zeta. rewrite copy_at_length, length_insert. unfold make.
  rewrite length_replicate.
  replace (length b + 2)%nat with (S (length b + 1)) by lia.
  cbn [replicate]. change (<[0%nat:=quote]> (0 :: replicate (length b + 1) 0))
    with ([quote] ++ replicate (length b + 1) 0).
  rewrite (copy_at_app [quote]), copy_replicate by reflexivity.
  cbn [replicate app].
  replace (S (length b + 1) - 1)%nat with (length (quote :: b))
    by (cbn [length]; lia).
  apply (insert_after (quote :: b) [] 0 quote).
Qed.

End Adapters.

(** X9. What [UnmarshalJSON] does with any input: it never panics; an
    input shorter than 31 bytes is "ksuid too short" whatever it holds; a
    longer one whose first or last byte is not a double quote is "expected
    string"; otherwise the error of [Parse] on the bytes between the
    quotes comes back unchanged. On every error the receiver keeps its
    value, and success is exactly a text between quotes that [Parse]
    accepts, whose identifier becomes the receiver. *)
Theorem UnmarshalJSON_outcomes (p : positive) (recv : ID.t) (b : list Z) :
  exists id err,
    UnmarshalJSON p recv b = Return (id, err)
    /\ ((length b < 31)%nat -> err = Some (ParseError "ksuid too short"))
    /\ ((31 <= length b)%nat ->
        nth 0 b 0 <> quote \/ nth (length b - 1) b 0 <> quote ->
        err = Some (ParseError "expected string"))
    /\ (forall e, err = Some e -> id = recv)
    /\ (forall s n e,
          b = quote :: s ++ [quote] -> (29 <= length s)%nat ->
          Parse p s = Return (n, Some e) -> err = Some e)
    /\ (err = None <->
        exists s, b = quote :: s ++ [quote] /\ Parse p s = Return (id, None)).
Proof.
  destruct (Nat.lt_ge_cases (length b) 31) as [Hshort|Hlong].
  - exists recv, (Some (ParseError "ksuid too short")).
    assert (Hrun : UnmarshalJSON p recv b
                   = Return (recv, Some (ParseError "ksuid too short"))).
    { unfold UnmarshalJSON, encodedLen.
      destruct (Nat.ltb_spec (length b) (29 + 2)); [reflexivity|lia]. }
    split; [exact Hrun|]. split; [reflexivity|]. split; [lia|].
    split; [reflexivity|]. split.
    + intros s n e -> Hs _. cbn [length] in Hshort. rewrite length_app in Hshort.
      cbn [length] in Hshort. lia.
    + split; [discriminate|]. intros (s & -> & HParse). exfalso.
      pose proof (Parse_success_length p s recv HParse) as Hbody.
      pose proof (split_body_length s) as Hle. unfold encodedLen in Hbody.
      cbn [length] in Hshort. rewrite length_app in Hshort. cbn [length] in Hshort. lia.
  - destruct (ends_apart b ltac:(lia)) as (x & l & y & ->).
    assert (Hl : (29 <= length l)%nat).
    { cbn [length] in Hlong. rewrite length_app in Hlong. cbn [length] in Hlong. lia. }
    assert (Hlast : nth (length (x :: l ++ [y]) - 1) (x :: l ++ [y]) 0 = y).
    { assert (Hlen : length (x :: l ++ [y]) = S (S (length l)))
        by (cbn [length]; rewrite length_app; cbn [length]; lia).
      rewrite Hlen. replace (S (S (length l)) - 1)%nat with (S (length l)) by lia.
      change (nth (S (length l)) (x :: l ++ [y]) 0) with (nth (length l) (l ++ [y]) 0).
      rewrite app_nth2, Nat.sub_diag by lia. reflexivity. }
    rewrite Hlast. change (nth 0 (x :: l ++ [y]) 0) with x.
    rewrite UnmarshalJSON_equation. unfold encodedLen.
    destruct (Nat.ltb_spec (length l) 29) as [|_]; [lia|].
    destruct (Z.eqb_spec x quote) as [->|Hx].
    + destruct (Z.eqb_spec y quote) as [->|Hy].
      * cbn [negb orb].
        destruct (Parse_returns p l) as (n & err & HParse). rewrite HParse.
        unfold mbind, go_bind, mret, go_ret. cbn [fst snd].
        destruct err as [e|].
        -- exists recv, (Some e). split; [reflexivity|].
           split; [cbn [length]; rewrite length_app; cbn [length]; lia|].
           split; [intros _ [H|H]; contradiction|]. split; [reflexivity|]. split.
           ++ intros s n' e' Hb _ HParse'. injection Hb as Hb.
              apply app_inj_tail in Hb as [<- _]. congruence.
           ++ split; [discriminate|]. intros (s & Hb & HParse'). injection Hb as Hb.
              apply app_inj_tail in Hb as [<- _]. congruence.
        -- exists n, None. split; [reflexivity|].
           split; [cbn [length]; rewrite length_app; cbn [length]; lia|].
           split; [intros _ [H|H]; contradiction|]. split; [discriminate|]. split.
           ++ intros s n' e' Hb _ HParse'. injection Hb as Hb.
              apply app_inj_tail in Hb as [<- _]. congruence.
           ++ split; [|reflexivity]. intros _. exists l. auto.
      * cbn [negb orb]. exists recv, (Some (ParseError "expected string")).
        split; [reflexivity|].
        split; [cbn [length]; rewrite length_app; cbn [length]; lia|].
        split; [reflexivity|]. split; [reflexivity|]. split.
        -- intros s n e Hb _ _. injection Hb as Hb.
           apply app_inj_tail in Hb as [_ Hq]. contradiction.
        -- split; [discriminate|]. intros (s & Hb & _). injection Hb as Hb.
           apply app_inj_tail in Hb as [_ Hq]. contradiction.
    + cbn [negb orb]. exists recv, (Some (ParseError "expected string")).
      split; [reflexivity|].
      split; [cbn [length]; rewrite length_app; cbn [length]; lia|].
      split; [reflexivity|]. split; [reflexivity|]. split.
      * intros s n e Hb _ _. injection Hb as Hq _. contradiction.
      * split; [discriminate|]. intros (s & Hb & _). injection Hb as Hq _. contradiction.
Qed.

(** X10. The adapters compose with [Bytes] like [Parse] does. For an
    identifier with an instance identity and an encoder that keeps the
    length of its buffer, [Value] returns the text of [Bytes] and
    [MarshalJSON] that text between two double quotes; [UnmarshalJSON] of
    the JSON, and [Scan] of the text as a string or as bytes, are [Parse]
    of the text: its identifier on success, its error with the receiver
    untouched otherwise. [Scan] of any other type fails and leaves the
    receiver. *)
Theorem adapters_follow_Parse (enc : list Z -> list Z -> list Z) (p : positive)
    (v recv : ID.t) (r : InstanceID.ref)
    (Hinst : ID.InstanceID v = Some r)
    (Hlen : forall y x, length (enc y x) = length y) :
  exists text json,
    ID.Bytes enc v = Return text
    /\ ID.Value enc v = Return (text, None)
    /\ ID.MarshalJSON enc v = Return (json, None)
    /\ json = quote :: text ++ [quote]
    /\ (exists id err,
          Parse p text = Return (id, err)
          /\ let stored := match err with
                           | Some e => Return (recv, Some e)
                           | None => Return (id, None)
                           end in
             UnmarshalJSON p recv json = stored
             /\ Scan p recv (ScanString text) = stored
             /\ Scan p recv (ScanBytes text) = stored)
    /\ Scan p recv ScanOther
       = Return (recv, Some (ParseError "unsupported scan, must be string or []byte")).
Proof.
  pose proof (Bytes_present enc v r Hinst Hlen) as HBytes.
  set (text := text_prefix v ++ [chr "0"; chr "0"]
               ++ take 27 (enc (make encodedLen) (payload v r))) in *.
  assert (Htext : (29 <= length text)%nat).
  { unfold text. rewrite !length_app, length_take, Hlen. unfold make, encodedLen.
    rewrite length_replicate. cbn [length]. lia. }
  exists text, (quote :: text ++ [quote]).
  split; [exact HBytes|].
  split; [unfold ID.Value; rewrite HBytes; reflexivity|].
  split.
  { unfold ID.MarshalJSON. rewrite HBytes. unfold mbind, go_bind, mret, go_ret.
    rewrite (quotes_around text). reflexivity. }
  split; [reflexivity|]. split; [|reflexivity].
  destruct (Parse_returns p text) as (id & err & HParse).
  exists id, err. split; [exact HParse|]. cbv zeta.
  split; [|split].
  - rewrite UnmarshalJSON_equation. unfold encodedLen.
    destruct (Nat.ltb_spec (length text) 29); [lia|].
    rewrite Z.eqb_refl. cbn [negb orb]. rewrite HParse.
    unfold mbind, go_bind, mret, go_ret. cbn [fst snd]. destruct err; reflexivity.
  - unfold Scan. rewrite HParse.
    unfold mbind, go_bind, mret, go_ret. cbn [fst snd]. destruct err; reflexivity.
  - unfold Scan. rewrite HParse.
    unfold mbind, go_bind, mret, go_ret. cbn [fst snd]. destruct err; reflexivity.
Qed.

Lemma adapters_follow_Parse_witness :
  exists text json,
    ID.Bytes example_Encode example_id = Return text
    /\ ID.Value example_Encode example_id = Return (text, None)
    /\ ID.MarshalJSON example_Encode example_id = Return (json, None)
    /\ json = quote :: text ++ [quote]
    /\ (exists id err,
          Parse 1 text = Return (id, err)
          /\ let stored := match err with
                           | Some e => Return (ID.zero, Some e)
                           | None => Return (id, None)
                           end in
             UnmarshalJSON 1 ID.zero json = stored
             /\ Scan 1 ID.zero (ScanString text) = stored
             /\ Scan 1 ID.zero (ScanBytes text) = stored)
    /\ Scan 1 ID.zero ScanOther
       = Return (ID.zero, Some (ParseError "unsupported scan, must be string or []byte")).
Proof.
  apply (adapters_follow_Parse example_Encode 1 example_id ID.zero example_ref).
  - reflexivity.
  - apply example_Encode_length.
Defined.

(** ** Sets: membership, length and iteration *)

Section SetOperations.

Lemma walk_from (s : IDSet.t) (m k : nat) :
  forall it,
    (Iterator.i it + k = length (IDSet.items s))%nat ->
    walk s it (k + m)
    = map (fun x => (true, x)) (drop (Iterator.i it) (IDSet.items s))
      ++ replicate m (false, ID.zero).
Proof.
  induction k as [|k IH]; intros it Hk.
  - rewrite drop_ge by lia. cbn [map app Nat.add].
    revert it Hk. induction m as [|m IHm]; intros it Hk; [reflexivity|].
    cbn [walk replicate]. unfold Iterator.Next.
    destruct (Nat.leb_spec (length (IDSet.items s)) (Iterator.i it)); [|lia].
    cbn [Iterator.Value Iterator.v]. f_equal. apply IHm. cbn [Iterator.i]. exact Hk.
  - cbn [Nat.add walk]. unfold Iterator.Next.
    destruct (Nat.leb_spec (length (IDSet.items s)) (Iterator.i it)); [lia|].
    cbn [Iterator.Value Iterator.v].
    destruct (lookup_lt_is_Some_2 (IDSet.items s) (Iterator.i it) ltac:(lia)) as [x Hx].
    rewrite (drop_S _ x _ Hx). cbn [map app].
    rewrite (nth_lookup_Some _ _ ID.zero x Hx). f_equal.
    apply IH. cbn [Iterator.i]. lia.
Qed.

Lemma Exists_elem (s : IDSet.t) (x : ID.t) :
  IDSet.Exists s x = true <-> x ∈ IDSet.lookup s.
Proof. unfold IDSet.Exists. apply bool_decide_eq_true. Qed.

Lemma Delete_length (s : IDSet.t) (id : ID.t) :
  IDSet.Len (IDSet.Delete s id)
  = match IDSet.first_Equal (IDSet.items s) id with
    | Some _ => (IDSet.Len s - 1)%nat
    | None => IDSet.Len s
    end.
Proof.
  unfold IDSet.Len. rewrite Delete_items.
  destruct (IDSet.first_Equal (IDSet.items s) id) as [i|] eqn:E; [|reflexivity].
  apply length_delete, lookup_lt_is_Some_2, (first_Equal_lookup _ _ _ E).
Qed.

End SetOperations.

(** X11. [Append], [Exists] and [Len] on any set: [Append] reports
    whether the identifier was missing from the index; afterwards it is
    in the index and nothing else changed there; the items grow by this
    identifier at the end exactly when it was missing, and [Len] by one;
    appending it once more changes nothing and reports [false]. *)
Theorem Append_Exists_Len (s : IDSet.t) (id : ID.t) :
  let s' := (IDSet.Append s id).1 in
  let appended := (IDSet.Append s id).2 in
  appended = negb (IDSet.Exists s id)
  /\ IDSet.Exists s' id = true
  /\ (forall x, x <> id -> IDSet.Exists s' x = IDSet.Exists s x)
  /\ IDSet.items s' = (if appended then IDSet.items s ++ [id] else IDSet.items s)
  /\ IDSet.Len s' = (IDSet.Len s + (if appended then 1 else 0))%nat
  /\ IDSet.Append s' id = (s', false).
Proof.
  cbv zeta. unfold IDSet.Append, IDSet.Exists, IDSet.Len.
  destruct (bool_decide_reflect (id ∈ IDSet.lookup s)) as [Hin|Hout]; cbn [fst snd negb].
  - rewrite (bool_decide_eq_true_2 _ Hin). repeat split; try reflexivity. lia.
  - cbn [IDSet.items IDSet.lookup].
    assert (Hnow : id ∈ ({[id]} ∪ IDSet.lookup s : gset ID.t))
      by (apply elem_of_union_l, elem_of_singleton; reflexivity).
    rewrite (bool_decide_eq_true_2 _ Hnow).
    split; [reflexivity|]. split; [reflexivity|]. split.
    + intros x Hx. apply bool_decide_ext.
      rewrite elem_of_union, elem_of_singleton. tauto.
    + split; [reflexivity|]. split; [|reflexivity].
      rewrite length_app. reflexivity.
Qed.

(** X12. [Delete], [Exists] and [Len] on any set: afterwards the
    identifier is not in the index and nothing else changed there; the
    items are the old ones in the old order, without the first item that
    [Equal]s the identifier; [Len] drops by one exactly when there is such
    an item. Deleting from the empty set does nothing. *)
Theorem Delete_Exists_Len (s : IDSet.t) (id : ID.t) :
  let s' := IDSet.Delete s id in
  IDSet.Exists s' id = false
  /\ (forall x, x <> id -> IDSet.Exists s' x = IDSet.Exists s x)
  /\ (IDSet.items s' `sublist_of` IDSet.items s)
  /\ ((exists x, x ∈ IDSet.items s /\ ID.Equal x id = true) ->
      IDSet.Len s = S (IDSet.Len s'))
  /\ ((forall x, x ∈ IDSet.items s -> ID.Equal x id = false) ->
      IDSet.items s' = IDSet.items s)
  /\ IDSet.Delete (IDSet.NewSet []) id = IDSet.NewSet [].
Proof.
  cbv zeta. split; [|split; [|split; [|split; [|split]]]].
  - unfold IDSet.Exists, IDSet.Delete. cbn [IDSet.lookup].
    apply bool_decide_eq_false_2.
    rewrite elem_of_difference, elem_of_singleton. tauto.
  - intros x Hx. unfold IDSet.Exists, IDSet.Delete. cbn [IDSet.lookup].
    apply bool_decide_ext. rewrite elem_of_difference, elem_of_singleton. tauto.
  - apply Delete_order.
  - intros (x & Hx & Heq). rewrite Delete_length.
    destruct (IDSet.first_Equal (IDSet.items s) id) as [i|] eqn:E.
    + apply first_Equal_lookup in E. unfold IDSet.Len. lia.
    + rewrite (first_Equal_none _ _ E x Hx) in Heq. discriminate.
  - intros Hnone. rewrite Delete_items.
    destruct (IDSet.first_Equal (IDSet.items s) id) as [i|] eqn:E; [|reflexivity].
    destruct (first_Equal_found _ _ _ E) as (x & Hi & Heq).
    rewrite (Hnone x) in Heq by (eapply list_elem_of_lookup_2, Hi). discriminate.
  - unfold IDSet.Delete, IDSet.NewSet. cbn. f_equal.
    apply set_eq. intros x. rewrite elem_of_difference, elem_of_empty. tauto.
Qed.

(** X13. The documented invariant (each item once, the index holds
    exactly the items) where the code keeps it: [NewSet] establishes it
    from items without duplicates, [Append] keeps it, and [Delete] keeps
    it when [Equal] with the identifier singles out the identifier itself
    among the items. Under the invariant [Exists] is membership in the
    items, and a [Delete] of a member then removes it and takes [Len] down
    by one. *)
Theorem set_invariant_kept (l : list ID.t) (s : IDSet.t) (id : ID.t)
    (Hl : NoDup l) (Hs : set_invariant s) :
  set_invariant (IDSet.NewSet l)
  /\ set_invariant (IDSet.Append s id).1
  /\ (forall x, IDSet.Exists s x = true <-> x ∈ IDSet.items s)
  /\ ((forall x, x ∈ IDSet.items s -> (ID.Equal x id = true <-> x = id)) ->
      set_invariant (IDSet.Delete s id)
      /\ (id ∉ IDSet.items (IDSet.Delete s id))
      /\ (IDSet.Exists s id = true -> IDSet.Len s = S (IDSet.Len (IDSet.Delete s id)))).
Proof.
  split; [exact (NewSet_invariant l Hl)|].
  split; [exact (proj1 (Append_invariant s id Hs))|].
  assert (Hmem : forall x, IDSet.Exists s x = true <-> x ∈ IDSet.items s).
  { intros x. rewrite Exists_elem. symmetry. apply Hs. }
  split; [exact Hmem|]. intros Hagree.
  pose proof (Delete_invariant s id Hs Hagree) as Hinv.
  split; [exact Hinv|]. split.
  - intros Hin. apply Hinv in Hin. cbn [IDSet.Delete IDSet.lookup] in Hin.
    apply elem_of_difference in Hin as [_ Hin]. apply Hin, elem_of_singleton.
    reflexivity.
  - intros Hex. apply Hmem in Hex. rewrite Delete_length.
    destruct (IDSet.first_Equal (IDSet.items s) id) as [i|] eqn:E.
    + apply first_Equal_lookup in E. unfold IDSet.Len. lia.
    + pose proof (first_Equal_none _ _ E id Hex) as Hno.
      assert (Hyes : ID.Equal id id = true) by (apply Hagree; [exact Hex|reflexivity]).
      congruence.
Qed.

Lemma set_invariant_kept_witness :
  set_invariant (IDSet.NewSet [example_id])
  /\ set_invariant (IDSet.Append (IDSet.NewSet [example_id]) example_bare).1
  /\ set_invariant (IDSet.Delete (IDSet.NewSet [example_id]) example_id).
Proof.
  assert (Hl : NoDup [example_id]) by (apply NoDup_singleton).
  destruct (set_invariant_kept [example_id] (IDSet.NewSet [example_id]) example_id Hl
              (NewSet_invariant [example_id] Hl)) as (H1 & _ & _ & H4).
  destruct (set_invariant_kept [example_id] (IDSet.NewSet [example_id]) example_bare Hl
              (NewSet_invariant [example_id] Hl)) as (_ & H2 & _).
  split; [exact H1|]. split; [exact H2|].
  apply H4. intros x Hx. apply list_elem_of_singleton in Hx as ->.
  split; [reflexivity|]. intros _. vm_compute. reflexivity.
Defined.

(** X14. Iteration over a set nobody changes: the first [Len] calls of
    [Next] on a new iterator return [true] and [Value] gives the items in
    their order; every later call returns [false] and [Value] gives the
    zero identifier. *)
Theorem Iterator_walk (s : IDSet.t) (m : nat) :
  walk s (Iter s) (IDSet.Len s + m)
  = map (fun x => (true, x)) (IDSet.items s) ++ replicate m (false, ID.zero).
Proof.
  unfold IDSet.Len. rewrite (walk_from s m (length (IDSet.items s)) (Iter s)).
  - cbn [Iter Iterator.i]. rewrite drop_0. reflexivity.
  - reflexivity.
Qed.

(** ** Bytes outside the alphabet *)

(** X15. [Parse] does not check the alphabet: a byte outside it counts
    as the digit [base62Value] gives it, and only the number the 29 bytes
    denote matters. Two texts with the same prefix fields and bodies of
    the same length that denote the same number get the same result from
    [Parse], identifier and error alike. *)
Theorem Parse_ignores_alphabet (p : positive) (s1 s2 : list Z)
    (Hprefix : (splitPrefixID s1).1 = (splitPrefixID s2).1)
    (Hlen : length (splitPrefixID s1).2 = length (splitPrefixID s2).2)
    (Hnumber : decoded_number (splitPrefixID s1).2
               = decoded_number (splitPrefixID s2).2) :
  Parse p s1 = Parse p s2.
Proof.
  rewrite !Parse_equation.
  destruct (splitPrefixID s1) as [[env1 res1] body1].
  destruct (splitPrefixID s2) as [[env2 res2] body2].
  cbn [fst snd] in *. injection Hprefix as -> ->. rewrite Hlen, Hnumber. reflexivity.
Qed.

Lemma Parse_ignores_alphabet_witness :
  Parse 1 (bytes "user_000000BPG6Lks9tQoAiJYrBRSXPX6")
  = Parse 1 (bytes "user_000000BPG6Lks9tQoAiJYrBRSXPW" ++ [129])
  /\ ~ is_base62 129.
Proof.
  split.
  - apply (Parse_ignores_alphabet 1 (bytes "user_000000BPG6Lks9tQoAiJYrBRSXPX6")
             (bytes "user_000000BPG6Lks9tQoAiJYrBRSXPW" ++ [129])).
    + reflexivity.
    + reflexivity.
    + vm_compute. reflexivity.
  - unfold is_base62. vm_compute. intros H.
    repeat (destruct H as [H|H]; [discriminate|]). exact H.
Defined.

(** ** The fingerprint of a hardware identity *)

Section Fingerprint.

Lemma copy_padded (n : nat) (src : list Z) :
  copy (make n) src = take n (src ++ replicate n 0).
Proof.
  unfold copy, make. rewrite length_replicate, drop_replicate.
  destruct (Nat.le_gt_cases n (length src)) as [Hle|Hgt].
  - replace (n - length src)%nat with 0%nat by lia. cbn [replicate].
    rewrite app_nil_r, take_app_le by lia. reflexivity.
  - rewrite take_ge by lia. rewrite take_app_ge by lia.
    rewrite take_replicate. f_equal. f_equal. lia.
Qed.

End Fingerprint.

(** X16. The fingerprint of a hardware identity is always 8 bytes: the
    first six bytes of the address, with zeros behind a shorter one, then
    the process number in two bytes, high byte first. Parsing it gives the
    address cut or padded to six bytes and the process number modulo
    2^16, so an identity comes back unchanged exactly when its address
    has six bytes and its process number fits 16 bits. *)
Theorem HardwareID_fingerprint (hid : HardwareID.t) :
  HardwareID.Bytes hid
  = take 6 (HardwareID.MachineID hid ++ replicate 6 0)
    ++ be_bytes 2 (HardwareID.ProcessID hid)
  /\ length (HardwareID.Bytes hid) = 8%nat
  /\ ParseHardwareID (HardwareID.Bytes hid)
     = (Some {| HardwareID.MachineID :=
                  take 6 (HardwareID.MachineID hid ++ replicate 6 0);
                HardwareID.ProcessID := HardwareID.ProcessID hid mod 2 ^ 16 |},
        None).
Proof.
  assert (Hbytes : HardwareID.Bytes hid
                   = take 6 (HardwareID.MachineID hid ++ replicate 6 0)
                     ++ be_bytes 2 (HardwareID.ProcessID hid)).
  { unfold HardwareID.Bytes, PutUint16_at, copy_at. cbv zeta.
    rewrite copy_padded.
    set (M := HardwareID.MachineID hid).
    assert (Htake : take 6 (take 8 (M ++ replicate 8 0)) = take 6 (M ++ replicate 6 0)).
    { rewrite take_take. change (6 `min` 8)%nat with 6%nat.
      destruct (Nat.le_gt_cases 6 (length M)) as [Hle|Hgt].
      - rewrite !take_app_le by lia. reflexivity.
      - rewrite !take_app_ge by lia. rewrite !take_replicate. f_equal. f_equal. lia. }
    rewrite Htake. f_equal. unfold copy.
    rewrite length_drop, length_take, length_app, length_replicate, be_bytes_length.
    replace ((8 `min` (length M + 8)) - 6)%nat with 2%nat by lia.
    rewrite take_ge by (rewrite be_bytes_length; lia).
    rewrite drop_ge, app_nil_r; [reflexivity|].
    rewrite length_drop, length_take, length_app, length_replicate. lia. }
  assert (Hsix : length (take 6 (HardwareID.MachineID hid ++ replicate 6 0)) = 6%nat).
  { rewrite length_take, length_app, length_replicate. lia. }
  split; [exact Hbytes|]. split.
  - rewrite Hbytes, length_app, Hsix, be_bytes_length. reflexivity.
  - unfold ParseHardwareID. rewrite Hbytes.
    rewrite length_app, Hsix, be_bytes_length. cbn [Nat.add Nat.eqb negb].
    rewrite take_app_length', drop_app_length' by (symmetry; exact Hsix).
    unfold Uint16.
    rewrite (take_ge (be_bytes 2 (HardwareID.ProcessID hid)))
      by (rewrite be_bytes_length; lia).
    rewrite be_value_bytes. reflexivity.
Qed.
